(** * Automotive service station dashboard: cost aggregation and live-feed
    capture orchestration

    Shallow embedding of [src/App.tsx] (the cost aggregator
    [updateTotalCost] / [handleAnalysisComplete]) and of
    [src/components/LiveFeed.tsx] (video source selector, per-station capture
    slots, remote-feed polling and the auto-capture sequencer).

    Conventions of the embedding.
    - A JavaScript [number] that may be absent is a [JsNumber]: [undefined],
      [null] or a binary64 float, the [spec_float] of the standard library
      at precision 53 and maximal exponent 1024.  Counts and amounts are
      added, multiplied and compared with [SFadd], [SFmul] and [SFltb], so
      rounding, overflow to an infinity and [NaN] are those of the running
      program.  A numeric field holds what its declared type admits, a
      number or nothing; a JSON body that puts a string or a boolean there
      is outside the model.
    - A clock reading (seconds since the epoch, as [Date.now() / 1000] and
      the station timestamps give them) is a [JsNum] over exact rationals
      ([Qc]).  The only arithmetic on clock readings is the subtraction of
      one from another, compared with 3; binary64 subtracts two readings
      that are within a factor 2 of each other without rounding.
    - A [string | null] state cell is an [option string]; a JSON field that
      should hold a string is a [JsStr].
    - A [Record<Block, T>] is a [PerBlock T], a record with the four keys.
    - React state is one record; every event handler, timer callback and
      promise continuation is one atomic transition of [LiveFeed.step].  A
      callback that awaits is cut at each [await]: the poll callback is
      three transitions (the tick, the station answers, the legacy
      answer), and the work that is under way in between is counted in
      [inFlight]. *)

From Stdlib Require Import ZArith QArith Qcanon SpecFloat.
From Stdlib Require Import String List Bool Arith Lia.
Import ListNotations.

Local Open Scope string_scope.

(** ** JavaScript values *)

(** Clock readings. *)
Inductive JsNum : Type :=
| JUndefined
| JNull
| JNaN
| JNum (q : Qc).

Declare Scope js_scope.
Delimit Scope js_scope with js.
Bind Scope js_scope with JsNum.

Inductive JsStr : Type :=
| SUndefined
| SNull
| SStr (s : string).

Definition qc (n : Z) : Qc := Q2Qc (inject_Z n).

(** [ToNumber]: [undefined] and [NaN] give [NaN] (here [None]), [null] is 0. *)
Definition toNumber (v : JsNum) : option Qc :=
  match v with
  | JUndefined => None
  | JNull => Some (qc 0)
  | JNaN => None
  | JNum q => Some q
  end.

(** [a - b] on clock readings. *)
Definition jsub (a b : JsNum) : JsNum :=
  match toNumber a, toNumber b with
  | Some x, Some y => JNum (x - y)
  | _, _ => JNaN
  end.

Definition Qcltb (x y : Qc) : bool := negb (Qle_bool y x).

(** [a < b]: any comparison with [NaN] is false. *)
Definition jlt (a b : JsNum) : bool :=
  match toNumber a, toNumber b with
  | Some x, Some y => Qcltb x y
  | _, _ => false
  end.

Definition nullishS (v : JsStr) (d : string) : string :=
  match v with
  | SStr s => s
  | _ => d
  end.

(** Truthiness, as tested by [if], [&&], [||] and [!]. *)
Definition truthyN (v : JsNum) : bool :=
  match v with
  | JNum q => negb (Qeq_bool q 0)
  | _ => false
  end.

Definition truthyS (v : JsStr) : bool :=
  match v with
  | SStr s => negb (s =? "")
  | _ => false
  end.

Definition truthyO (v : option string) : bool :=
  match v with
  | Some s => negb (s =? "")
  | None => false
  end.

(** [a || b] on [string | null] cells. *)
Definition orElse (a b : option string) : option string :=
  if truthyO a then a else b.

(** A value spliced into a template literal. *)
Definition template (v : JsStr) : string :=
  match v with
  | SUndefined => "undefined"
  | SNull => "null"
  | SStr s => s
  end.

Infix "-" := jsub : js_scope.

(** A whole number of seconds. *)
Definition num (n : Z) : JsNum := JNum (qc n).

(** ** JavaScript numbers in binary64 *)

(** The binary64 number nearest to [m * 2^e] (ties to even). *)
Definition dyadic (m e : Z) : spec_float := binary_normalize 53 1024 m e false.

(** The binary64 number nearest to the integer [z]: the value of an integer
    literal, and of an integer in a JSON body. *)
Definition ofZ (z : Z) : spec_float := dyadic z 0.

(** The binary64 number nearest to [n / d]: the value of a decimal literal
    such as [1.711], with [n = 1711] and [d = 1000]. *)
Definition ratio (n d : Z) : spec_float := SFdiv 53 1024 (ofZ n) (ofZ d).

(** The normal number whose value is [z * 2^g], for [0 < z < 2^53]: the
    mantissa is [z] shifted up to 53 bits. *)
Definition fin (z g : Z) : spec_float :=
  S754_finite false (Z.to_pos (z * 2 ^ (52 - Z.log2 z))) (g + Z.log2 z - 52).

(** The real number a finite float stands for. *)
Definition valueOf (x : spec_float) : option Q :=
  match x with
  | S754_zero _ => Some 0%Q
  | S754_finite s m e =>
      let v := match e with
               | Zneg p => Qmake (Zpos m) (Z.to_pos (2 ^ Zpos p))
               | _ => inject_Z (Zpos m * 2 ^ e)
               end in
      Some (if s then Qopp v else v)
  | _ => None
  end.

(** The integer part of a finite float; 0 for the others. *)
Definition intOf (x : spec_float) : Z :=
  match x with
  | S754_finite s m e =>
      let v := match e with
               | Zneg p => (Zpos m / 2 ^ Zpos p)%Z
               | _ => (Zpos m * 2 ^ e)%Z
               end in
      if s then Z.opp v else v
  | _ => 0%Z
  end.

(** A [number] that may be absent. *)
Inductive JsNumber : Type :=
| NUndefined
| NNull
| NNum (x : spec_float).

Declare Scope f64_scope.
Delimit Scope f64_scope with f64.
Bind Scope f64_scope with JsNumber.

(** [ToNumber]: [undefined] gives [NaN], [null] gives [+0]. *)
Definition toFloat (v : JsNumber) : spec_float :=
  match v with
  | NUndefined => S754_nan
  | NNull => S754_zero false
  | NNum x => x
  end.

Definition nadd (a b : JsNumber) : JsNumber :=
  NNum (SFadd 53 1024 (toFloat a) (toFloat b)).

Definition nmul (a b : JsNumber) : JsNumber :=
  NNum (SFmul 53 1024 (toFloat a) (toFloat b)).

(** [a > b]: any comparison with [NaN] is false. *)
Definition ngt (a b : JsNumber) : bool := SFltb (toFloat b) (toFloat a).

(** [v ?? d]: the default replaces [undefined] and [null] only. *)
Definition nullish (v d : JsNumber) : JsNumber :=
  match v with
  | NUndefined | NNull => d
  | _ => v
  end.

Infix "+" := nadd : f64_scope.
Infix "*" := nmul : f64_scope.
Infix "??" := nullish (at level 45, left associativity) : f64_scope.

(** An integer literal. *)
Definition lit (z : Z) : JsNumber := NNum (ofZ z).

(** The literal [twice / 2]: [45.5] is [half 91]. *)
Definition half (twice : Z) : JsNumber := NNum (dyadic twice (-1)).

(** Counts that a station can plausibly report: non-negative integers
    below [2^40], far from the [2^53] where binary64 stops holding every
    integer. *)
Definition small (z : Z) : Prop := (0 <= z < 2 ^ 40)%Z.

(** ** Stations *)

Inductive Block : Type := front | left | right | brake.

Definition Block_eqb (a b : Block) : bool :=
  match a, b with
  | front, front | left, left | right, right | brake, brake => true
  | _, _ => false
  end.

Definition blocksList : list Block := [front; left; right; brake].

Definition blockIds (b : Block) : nat :=
  match b with
  | front => 0
  | left => 1
  | right => 2
  | brake => 3
  end.

(** [Record<Block, T>]: an object with exactly the four station keys. *)
Record PerBlock (T : Type) : Type := mkPerBlock {
  at_front : T;
  at_left : T;
  at_right : T;
  at_brake : T
}.
Arguments mkPerBlock {T}.
Arguments at_front {T}.
Arguments at_left {T}.
Arguments at_right {T}.
Arguments at_brake {T}.

Definition pbAll {T} (v : T) : PerBlock T := mkPerBlock v v v v.

Definition pbMap {T U} (f : T -> U) (p : PerBlock T) : PerBlock U :=
  mkPerBlock (f (at_front p)) (f (at_left p)) (f (at_right p))
             (f (at_brake p)).

(** [p[block]] *)
Definition pbGet {T} (p : PerBlock T) (b : Block) : T :=
  match b with
  | front => at_front p
  | left => at_left p
  | right => at_right p
  | brake => at_brake p
  end.

(** [{ ...p, [block]: v }] *)
Definition pbSet {T} (p : PerBlock T) (b : Block) (v : T) : PerBlock T :=
  match b with
  | front => mkPerBlock v (at_left p) (at_right p) (at_brake p)
  | left => mkPerBlock (at_front p) v (at_right p) (at_brake p)
  | right => mkPerBlock (at_front p) (at_left p) v (at_brake p)
  | brake => mkPerBlock (at_front p) (at_left p) (at_right p) v
  end.

Inductive BrakeStatus : Type := Good | Bad.

(** [interface AnalysisResult]: every field is optional. *)
Record AnalysisResult : Type := mkAnalysisResult {
  scratches : JsNumber;
  dents : JsNumber;
  cracks : JsNumber;
  imageUrl : JsStr;
  res_beforeImage : JsStr;
  annotatedImage : JsStr;
  annotatedImageUrl : JsStr;
  brakeStatus : option BrakeStatus
}.

(** The object literal [{}]. *)
Definition emptyResult : AnalysisResult :=
  mkAnalysisResult NUndefined NUndefined NUndefined
                   SUndefined SUndefined SUndefined SUndefined None.

(** ** Cost aggregation ([App.tsx]) *)

Module App.

(** One entry of the [feedAnalysis] state. *)
Record FeedEntry : Type := mkFeedEntry {
  fa_scratches : JsNumber;
  fa_dents : JsNumber;
  fa_cracks : JsNumber;
  fa_imageUrl : string;
  fa_beforeImage : string;
  fa_annotatedImage : string;
  fa_annotatedImageUrl : string;
  fa_brakeStatus : option BrakeStatus
}.

(** The entries are optional here only because [updateTotalCost] guards
    each of them with [|| { scratches: 0, dents: 0 }]. *)
Definition FeedAnalysis : Type := PerBlock (option FeedEntry).

(** The numeric fields of the service record that [App] or the receipt
    reads.  The record's other fields (ids, dates, battery level, statuses)
    are set at creation and only ever spread. *)
Record ServiceRecord : Type := mkServiceRecord {
  scratches_count : JsNumber;
  dents_count : JsNumber;
  brake_wear_rate : JsNumber;
  total_cost : JsNumber
}.

Record AppState : Type := mkAppState {
  feedAnalysis : FeedAnalysis;
  serviceRecord : ServiceRecord
}.

Definition zeroEntry : FeedEntry :=
  mkFeedEntry (lit 0) (lit 0) (lit 0) "" "" "" "" None.

Definition initialEntry : FeedEntry := zeroEntry.

(** [scratches_count: 0, dents_count: 0, brake_wear_rate: 45.5,
    total_cost: 0] *)
Definition initialState : AppState :=
  mkAppState (pbAll (Some initialEntry))
             (mkServiceRecord (lit 0) (lit 0) (half 91) (lit 0)).

(** [updatedAnalysis.front || { scratches: 0, dents: 0 }] *)
Definition entryOr (e : option FeedEntry) : FeedEntry :=
  match e with
  | Some x => x
  | None => zeroEntry
  end.

(** The [total] expression of [updateTotalCost], in the source's order
    ([+] associates to the left). *)
Definition totalOf (updatedAnalysis : FeedAnalysis) (rate : JsNumber)
  : JsNumber :=
  let front := entryOr (at_front updatedAnalysis) in
  let left := entryOr (at_left updatedAnalysis) in
  let right := entryOr (at_right updatedAnalysis) in
  let brake := entryOr (at_brake updatedAnalysis) in
  ((fa_scratches front ?? lit 0) * lit 300 + (fa_dents front ?? lit 0) * lit 500 +
   (fa_scratches left ?? lit 0) * lit 300 + (fa_dents left ?? lit 0) * lit 500 +
   (fa_scratches right ?? lit 0) * lit 300 + (fa_dents right ?? lit 0) * lit 500 +
   (fa_scratches brake ?? lit 0) * lit 300 + (fa_dents brake ?? lit 0) * lit 500 +
   (rate ?? lit 0) * lit 20 + lit 500)%f64.

(** [setServiceRecord(prev => ({ ...prev, total_cost: total }))] *)
Definition updateTotalCost (updatedAnalysis : FeedAnalysis) (s : AppState)
  : AppState :=
  let total := totalOf updatedAnalysis (brake_wear_rate (serviceRecord s)) in
  let prev := serviceRecord s in
  mkAppState (feedAnalysis s)
             (mkServiceRecord (scratches_count prev) (dents_count prev)
                              (brake_wear_rate prev) total).

Definition handleAnalysisComplete (block : Block) (result : AnalysisResult)
           (s : AppState) : AppState :=
  let updated :=
    pbSet (feedAnalysis s) block
          (Some (mkFeedEntry
                   (scratches result ?? lit 0)%f64
                   (dents result ?? lit 0)%f64
                   (cracks result ?? lit 0)%f64
                   (nullishS (imageUrl result) "")
                   (nullishS (res_beforeImage result) "")
                   (nullishS (annotatedImage result) "")
                   (nullishS (annotatedImageUrl result) "")
                   (brakeStatus result))) in
  let s' := updateTotalCost updated s in
  mkAppState updated (serviceRecord s').

(** The aggregate as the specification words it, on integer counts: a sum
    over the stations of [scratches * 300 + dents * 500], plus the wear
    charge, plus the flat fee.  The wear rate is given by its double, so
    that 45.5 is [twiceRate = 91] and [rate * 20] is [twiceRate * 10]. *)
Definition stationCharge (c : Z * Z) : Z := (fst c * 300 + snd c * 500)%Z.

Definition specTotal (counts : PerBlock (Z * Z)) (twiceRate : Z) : Z :=
  (fold_right (fun b acc => stationCharge (pbGet counts b) + acc) 0 blocksList
   + twiceRate * 10 + 500)%Z.

(** The same sum over the reals, for counts and a rate that are any
    numbers. *)
Definition realTotal (counts : PerBlock (Q * Q)) (rate : Q) : Q :=
  (fold_right (fun b acc => fst (pbGet counts b) * 300
                            + snd (pbGet counts b) * 500 + acc) 0 blocksList
   + rate * 20 + 500)%Q.

(** Integer counts as reals. *)
Definition realCounts (counts : PerBlock (Z * Z)) : PerBlock (Q * Q) :=
  pbMap (fun c => (inject_Z (fst c), inject_Z (snd c))) counts.

(** A [feedAnalysis] whose four entries carry the given counts, whatever
    their other fields hold. *)
Definition entryWith (c : JsNumber * JsNumber) (e : FeedEntry) : FeedEntry :=
  mkFeedEntry (fst c) (snd c) (fa_cracks e) (fa_imageUrl e)
              (fa_beforeImage e) (fa_annotatedImage e)
              (fa_annotatedImageUrl e) (fa_brakeStatus e).

Definition analysisWith (counts : PerBlock (JsNumber * JsNumber))
           (others : PerBlock FeedEntry) : FeedAnalysis :=
  mkPerBlock (Some (entryWith (at_front counts) (at_front others)))
             (Some (entryWith (at_left counts) (at_left others)))
             (Some (entryWith (at_right counts) (at_right others)))
             (Some (entryWith (at_brake counts) (at_brake others))).

Definition integers (c : Z * Z) : JsNumber * JsNumber :=
  (lit (fst c), lit (snd c)).

Definition integerCounts (counts : PerBlock (Z * Z))
  : PerBlock (JsNumber * JsNumber) :=
  mkPerBlock (integers (at_front counts)) (integers (at_left counts))
             (integers (at_right counts)) (integers (at_brake counts)).

(** The worked example: front 2 scratches and 1 dent, right 1 scratch. *)
Definition exampleCounts : PerBlock (Z * Z) :=
  mkPerBlock (2, 1)%Z (0, 0)%Z (1, 0)%Z (0, 0)%Z.

(** A front station reporting [1.711] scratches, the other counts 0. *)
Definition fractionalCounts : PerBlock (JsNumber * JsNumber) :=
  mkPerBlock (NNum (ratio 1711 1000), lit 0) (lit 0, lit 0) (lit 0, lit 0)
             (lit 0, lit 0).


(** A count in a delivered result: absent, or a small integer. *)
Definition smallCount (v : JsNumber) : Prop :=
  v = NUndefined \/ v = NNull \/ exists n, small n /\ v = lit n.

(** The integer a stored count stands for. *)
Definition countOf (v : JsNumber) : Z := intOf (toFloat v).

Definition isSmall (v : JsNumber) : Prop := exists n, small n /\ v = lit n.

Definition entryIntegral (e : option FeedEntry) : Prop :=
  match e with
  | Some x => isSmall (fa_scratches x) /\ isSmall (fa_dents x)
  | None => True
  end.

(** Every stored count is a small integer, and the service record still
    has the rate and the two counts it was created with. *)
Definition integral (s : AppState) : Prop :=
  (forall b, entryIntegral (pbGet (feedAnalysis s) b)) /\
  brake_wear_rate (serviceRecord s) = half 91 /\
  scratches_count (serviceRecord s) = lit 0 /\
  dents_count (serviceRecord s) = lit 0.

(** States of the dashboard: the initial one and those that follow a
    delivered analysis result whose scratch and dent counts are absent or
    small integers. *)
Inductive reachable : AppState -> Prop :=
| reach_init : reachable initialState
| reach_result s block result :
    reachable s ->
    smallCount (scratches result) -> smallCount (dents result) ->
    reachable (handleAnalysisComplete block result s).

(** The repair charges of the four stations as the aggregator counts them. *)
Definition entryCharge (e : option FeedEntry) : Z :=
  stationCharge (countOf (fa_scratches (entryOr e)),
                 countOf (fa_dents (entryOr e))).

Definition stationCharges (fa : FeedAnalysis) : Z :=
  (entryCharge (at_front fa) + entryCharge (at_left fa)
   + entryCharge (at_right fa) + entryCharge (at_brake fa))%Z.

End App.

(** ** Live feed and capture orchestration ([LiveFeed.tsx]) *)

Module LiveFeed.

Inductive VideoSource : Type := pi | webcam | rpi | none.

Definition VideoSource_eqb (a b : VideoSource) : bool :=
  match a, b with
  | pi, pi | webcam, webcam | rpi, rpi | none, none => true
  | _, _ => false
  end.

(** [interface BlockState]: one capture slot. *)
Record BlockState : Type := mkBlockState {
  beforeImage : option string;
  afterImage : option string;
  loading : bool;
  analysisResult : AnalysisResult
}.

Definition emptyBlock : BlockState := mkBlockState None None false emptyResult.

Record ConnectionStatus : Type := mkConnectionStatus {
  connected : bool;
  lastUpdate : JsNum
}.

Definition disconnected : ConnectionStatus := mkConnectionStatus false JNull.

Inductive PiStatus : Type :=
| WaitingForConnection
| SystemActive (activeFeedCount : nat)
| WaitingForRpiFeeds
| BackendOffline.

Record PiStats : Type := mkPiStats {
  stat_dents : JsNumber;
  stat_scratches : JsNumber;
  stat_cracks : JsNumber
}.

(** The remote-feed cells of the component state. *)
Record PiFeed : Type := mkPiFeed {
  stationPiFeeds : PerBlock (option string);
  stationConnectionStatus : PerBlock ConnectionStatus;
  piImage : option string;
  piRawImage : option string;
  piStats : PiStats;
  piStatus : PiStatus
}.

(** What a render closes over and [captureFromFeed] later reads.  A manual
    click runs the handler of the current render; the interval callback of
    the sequencer keeps the handler of the render in which it was armed. *)
Record Closure : Type := mkClosure {
  c_videoSource : VideoSource;
  c_stationPiFeeds : PerBlock (option string);
  c_piRawImage : option string;
  c_piImage : option string;
  c_stream : PerBlock bool;
  c_rpiCamera : PerBlock bool
}.

(** A live [setInterval] timer of the sequencer: its local [currentIndex]
    and the closure of its callback. *)
Record Interval : Type := mkInterval {
  currentIndex : nat;
  env : Closure
}.

Record AutoCapture : Type := mkAutoCapture {
  autoCapturing : bool;
  currentAutoStation : option Block;
  autoCaptureTimerRef : option nat;
  intervals : list (nat * Interval);
  nextTimerId : nat
}.

Inductive Path : Type := FromFeed | FromUpload.

(** An analysis request that has been sent and not yet answered. *)
Record Request : Type := mkRequest {
  req_block : Block;
  req_before : string;
  req_path : Path
}.

Inductive Origin : Type := Manual | Auto.

(** Asynchronous work that has been started and whose continuation has not
    run yet:
    - [startingStreams]: per station, the calls of [startStationWebcam]
      scheduled by the source effect or by the station's device selector
      and not yet answered by [getUserMedia];
    - [pollingStations]: runs of the poll callback that await their four
      station fetches;
    - [pollingLegacy]: runs of the poll callback that have stored the
      station cells and await the legacy fetch.
    A stream request that is rejected only stores an error text, which is
    not modelled: it is a request whose continuation never runs. *)
Record InFlight : Type := mkInFlight {
  startingStreams : PerBlock nat;
  pollingStations : nat;
  pollingLegacy : nat
}.

(** The component state, the part of its environment that decides what
    can happen next ([pending], [inFlight]; the live timers are in
    [auto]), and two logs of what it did ([captureCalls], [delivered]).
    - [stationWebcams]: whether the station holds a media stream;
    - [selectedRpiCamera]: whether a configured camera is selected for the
      station (no modelled event changes it: the source selector offers
      no such source);
    - [captureCalls]: every call of [captureFromFeed], oldest first;
    - [delivered]: every call of the [onAnalysisComplete] prop. *)
Record State : Type := mkState {
  videoSource : VideoSource;
  stationWebcams : PerBlock bool;
  selectedRpiCamera : PerBlock bool;
  piFeed : PiFeed;
  auto : AutoCapture;
  blocks : PerBlock BlockState;
  pending : list Request;
  captureCalls : list (Origin * Block);
  delivered : list (Block * AnalysisResult);
  inFlight : InFlight
}.

Definition initialPiFeed : PiFeed :=
  mkPiFeed (pbAll None) (pbAll disconnected) None None
           (mkPiStats (lit 0) (lit 0) (lit 0)) WaitingForConnection.

Definition initialState : State :=
  mkState none (pbAll false) (pbAll false) initialPiFeed
          (mkAutoCapture false None None [] 1)
          (pbAll emptyBlock) [] [] [] (mkInFlight (pbAll O) O O).

(** *** State setters *)

Definition withVideoSource (v : VideoSource) (s : State) : State :=
  mkState v (stationWebcams s) (selectedRpiCamera s) (piFeed s) (auto s)
          (blocks s) (pending s) (captureCalls s) (delivered s) (inFlight s).

Definition setStationWebcams (w : PerBlock bool) (s : State) : State :=
  mkState (videoSource s) w (selectedRpiCamera s) (piFeed s) (auto s)
          (blocks s) (pending s) (captureCalls s) (delivered s) (inFlight s).

Definition withPiFeed (f : PiFeed) (s : State) : State :=
  mkState (videoSource s) (stationWebcams s) (selectedRpiCamera s) f (auto s)
          (blocks s) (pending s) (captureCalls s) (delivered s) (inFlight s).

Definition withAuto (a : AutoCapture) (s : State) : State :=
  mkState (videoSource s) (stationWebcams s) (selectedRpiCamera s) (piFeed s)
          a (blocks s) (pending s) (captureCalls s) (delivered s) (inFlight s).

(** [setBlocks(p => f p)] *)
Definition setBlocks (f : PerBlock BlockState -> PerBlock BlockState)
           (s : State) : State :=
  mkState (videoSource s) (stationWebcams s) (selectedRpiCamera s) (piFeed s)
          (auto s) (f (blocks s)) (pending s) (captureCalls s) (delivered s) (inFlight s).

Definition withPending (l : list Request) (s : State) : State :=
  mkState (videoSource s) (stationWebcams s) (selectedRpiCamera s) (piFeed s)
          (auto s) (blocks s) l (captureCalls s) (delivered s) (inFlight s).

Definition logCall (o : Origin) (b : Block) (s : State) : State :=
  mkState (videoSource s) (stationWebcams s) (selectedRpiCamera s) (piFeed s)
          (auto s) (blocks s) (pending s) (captureCalls s ++ [(o, b)])
          (delivered s) (inFlight s).

Definition withInFlight (i : InFlight) (s : State) : State :=
  mkState (videoSource s) (stationWebcams s) (selectedRpiCamera s) (piFeed s)
          (auto s) (blocks s) (pending s) (captureCalls s) (delivered s) i.

(** [onAnalysisComplete(block, result)] *)
Definition onAnalysisComplete (b : Block) (r : AnalysisResult) (s : State)
  : State :=
  mkState (videoSource s) (stationWebcams s) (selectedRpiCamera s) (piFeed s)
          (auto s) (blocks s) (pending s) (captureCalls s)
          (delivered s ++ [(b, r)]) (inFlight s).

Definition closureOf (s : State) : Closure :=
  mkClosure (videoSource s) (stationPiFeeds (piFeed s))
            (piRawImage (piFeed s)) (piImage (piFeed s))
            (stationWebcams s) (selectedRpiCamera s).

Definition dataUrl (base64 : JsStr) : string :=
  "data:image/jpeg;base64," ++ template base64.

(** *** Remote-feed polling *)

(** Body of [/api/station-feed/<station>]. *)
Record FeedData : Type := mkFeedData {
  fd_annotatedImage : JsStr;
  fd_timestamp : JsNum
}.

(** Body of [/api/latest-detection]. *)
Record LegacyData : Type := mkLegacyData {
  ld_annotatedImage : JsStr;
  ld_cleanImage : JsStr;
  ld_dentCount : JsNumber;
  ld_scratchCount : JsNumber;
  ld_crackCount : JsNumber
}.

(** One element of [results]: the mapped outcome of a station's fetch
    ([None] is a fetch that threw, caught per station). *)
Definition feedResult (station : Block) (r : option FeedData)
  : Block * option string * JsNum :=
  match r with
  | Some data =>
      if truthyS (fd_annotatedImage data)
      then (station, Some (dataUrl (fd_annotatedImage data)), fd_timestamp data)
      else (station, None, JNull)
  | None => (station, None, JNull)
  end.

(** [timestamp && (currentTime - timestamp) < 3] *)
Definition fresh (currentTime : Qc) (timestamp : JsNum) : bool :=
  truthyN timestamp && jlt (JNum currentTime - timestamp)%js (num 3).

(** The body of [results.forEach]. *)
Definition recordResult (currentTime : Qc)
           (acc : PerBlock (option string) * PerBlock ConnectionStatus)
           (r : Block * option string * JsNum)
  : PerBlock (option string) * PerBlock ConnectionStatus :=
  let '(station, image, timestamp) := r in
  let newFeeds := pbSet (fst acc) station image in
  if fresh currentTime timestamp
  then (newFeeds, pbSet (snd acc) station (mkConnectionStatus true timestamp))
  else (newFeeds, snd acc).

Definition pollStations (feeds : PerBlock (option FeedData)) (currentTime : Qc)
  : PerBlock (option string) * PerBlock ConnectionStatus :=
  let results := map (fun station => feedResult station (pbGet feeds station))
                     blocksList in
  fold_left (recordResult currentTime) results
            (pbAll None, pbAll disconnected).

Definition activeFeedCount (st : PerBlock ConnectionStatus) : nat :=
  List.length (filter connected (map (pbGet st) blocksList)).

(** The block of the poll callback between [await Promise.all(...)] and
    the [await] of the legacy fetch: the station cells and the status line
    are stored. *)
Definition stationsAnswered (feeds : PerBlock (option FeedData))
           (currentTime : Qc) (s : State) : State :=
  let '(newFeeds, newConnectionStatus) := pollStations feeds currentTime in
  let f := piFeed s in
  withPiFeed
    (mkPiFeed newFeeds newConnectionStatus (piImage f) (piRawImage f)
              (piStats f)
              (if Nat.ltb 0 (activeFeedCount newConnectionStatus)
               then SystemActive (activeFeedCount newConnectionStatus)
               else WaitingForRpiFeeds))
    s.

(** The block of the poll callback after the legacy fetch.  [legacy] is
    [None] when the fetch throws, which the outer [catch] turns into the
    offline status. *)
Definition legacyAnswered (legacy : option LegacyData) (s : State) : State :=
  let f := piFeed s in
  match legacy with
  | None =>
      withPiFeed (mkPiFeed (stationPiFeeds f) (stationConnectionStatus f)
                           (piImage f) (piRawImage f) (piStats f)
                           BackendOffline) s
  | Some data =>
      if truthyS (ld_annotatedImage data)
      then withPiFeed
             (mkPiFeed (stationPiFeeds f) (stationConnectionStatus f)
                       (Some (dataUrl (ld_annotatedImage data)))
                       (if truthyS (ld_cleanImage data)
                        then Some (dataUrl (ld_cleanImage data))
                        else piRawImage f)
                       (mkPiStats (ld_dentCount data) (ld_scratchCount data)
                                  (ld_crackCount data))
                       (piStatus f)) s
      else s
  end.

(** One run of the 500 ms polling callback during which nothing else
    happens: the two blocks above, one after the other.  [legacy] is [None]
    when the legacy fetch throws, which the outer [catch] turns into the
    offline status after the station cells were already stored. *)
Definition pollTick (feeds : PerBlock (option FeedData))
           (legacy : option LegacyData) (currentTime : Qc) (s : State)
  : State :=
  legacyAnswered legacy (stationsAnswered feeds currentTime s).

(** *** Capture pipeline *)

(** The [<video>] element of a station is rendered, and its ref set, only
    while the webcam source is selected, the station has a stream and no
    annotated image covers the content area. *)
Definition videoMounted (s : State) (block : Block) : bool :=
  VideoSource_eqb (videoSource s) webcam
  && pbGet (stationWebcams s) block
  && negb (truthyO (afterImage (pbGet (blocks s) block))).

(** First half of [captureFromFeed]: the still to submit, or [None] when
    the function returns early (an alert) or never gets its frame.
    [input] is what the environment hands back: the rasterised frame or
    the snapshot ([webcam], [rpi]), or merely the success of re-reading
    the cached data URL ([pi]). *)
Definition acquire (c : Closure) (s : State) (block : Block)
           (input : option string) : option string :=
  match c_videoSource c with
  | pi =>
      let stationFeed := pbGet (c_stationPiFeeds c) block in
      let sourceImage :=
        orElse (orElse stationFeed (c_piRawImage c)) (c_piImage c) in
      if negb (truthyO sourceImage) then None
      else match input with
           | Some _ => sourceImage
           | None => None
           end
  | rpi =>
      if negb (pbGet (c_rpiCamera c) block) then None else input
  | _ =>
      if negb (videoMounted s block) || negb (pbGet (c_stream c) block)
      then None
      else input
  end.

(** [setBlocks(p => ({ ...p, [block]: { ...p[block], loading: true,
    beforeImage } }))] followed by the analysis request: the part shared
    by the feed capture and the file upload. *)
Definition submit (block : Block) (image : string) (path : Path) (s : State)
  : State :=
  withPending
    (pending s ++ [mkRequest block image path])
    (setBlocks
       (fun p => pbSet p block
                       (mkBlockState (Some image)
                                     (afterImage (pbGet p block))
                                     true
                                     (analysisResult (pbGet p block))))
       s).

Definition captureFromFeed (c : Closure) (o : Origin) (block : Block)
           (input : option string) (s : State) : State :=
  let s := logCall o block s in
  match acquire c s block input with
  | None => s
  | Some sourceImageUrl => submit block sourceImageUrl FromFeed s
  end.

(** JSON body of a 2xx answer of [/api/analyze-image]. *)
Record ResData : Type := mkResData {
  rd_annotatedImage : JsStr;
  rd_scratchCount : JsNumber;
  rd_dentCount : JsNumber;
  rd_crackCount : JsNumber;
  rd_imageUrl : JsStr;
  rd_annotatedImageUrl : JsStr
}.

(** What [await analyzeImageFile(...)] does: throw (network error, non-2xx
    status, unreadable body) or return the parsed body. *)
Inductive Outcome : Type :=
| Threw
| Returned (resData : ResData).

(** The [catch] block of both capture paths. *)
Definition onCatch (block : Block) (s : State) : State :=
  setBlocks
    (fun p => pbSet p block
                    (mkBlockState (beforeImage (pbGet p block))
                                  (afterImage (pbGet p block))
                                  false
                                  (analysisResult (pbGet p block))))
    s.

(** The statements after [await analyzeImageFile(...)] inside [try]. *)
Definition onResult (req : Request) (resData : ResData) (s : State) : State :=
  let block := req_block req in
  let annotatedUrl := dataUrl (rd_annotatedImage resData) in
  let hasDefects :=
    ngt (rd_scratchCount resData + rd_dentCount resData
         + rd_crackCount resData)%f64 (lit 0) in
  let brakeStatus := if hasDefects then Bad else Good in
  onAnalysisComplete
    block
    (mkAnalysisResult (rd_scratchCount resData) (rd_dentCount resData)
                      (rd_crackCount resData) (rd_imageUrl resData)
                      (SStr (req_before req)) (SStr annotatedUrl)
                      (rd_annotatedImageUrl resData) (Some brakeStatus))
    (setBlocks
       (fun p => pbSet p block
                       (mkBlockState
                          (beforeImage (pbGet p block))
                          (Some annotatedUrl)
                          false
                          (mkAnalysisResult
                             (rd_scratchCount resData) (rd_dentCount resData)
                             (rd_crackCount resData) SUndefined SUndefined
                             SUndefined SUndefined (Some brakeStatus))))
       s).

(** Continuation of a capture once its request is answered.  Only the
    upload handler tests [!res.annotatedImage] and throws. *)
Definition settle (req : Request) (o : Outcome) (s : State) : State :=
  match o with
  | Threw => onCatch (req_block req) s
  | Returned resData =>
      match req_path req with
      | FromFeed => onResult req resData s
      | FromUpload =>
          if negb (truthyS (rd_annotatedImage resData))
          then onCatch (req_block req) s
          else onResult req resData s
      end
  end.

Fixpoint removeNth {A} (n : nat) (l : list A) : list A :=
  match n, l with
  | _, [] => []
  | O, _ :: t => t
  | S k, x :: t => x :: removeNth k t
  end.

(** The [n]-th outstanding request is answered. *)
Definition respond (n : nat) (o : Outcome) (s : State) : State :=
  match nth_error (pending s) n with
  | Some req => settle req o (withPending (removeNth n (pending s)) s)
  | None => s
  end.

Definition resetBlock (block : Block) (s : State) : State :=
  setBlocks (fun prev => pbSet prev block emptyBlock) s.

(** *** Auto-capture sequencer *)

Definition stationOrder : list Block := [front; left; right; brake].

Fixpoint clearInterval (id : option nat) (l : list (nat * Interval))
  : list (nat * Interval) :=
  match id, l with
  | Some i, (j, t) :: rest =>
      if Nat.eqb i j then clearInterval id rest
      else (j, t) :: clearInterval id rest
  | _, _ => l
  end.

Fixpoint findInterval (id : nat) (l : list (nat * Interval))
  : option Interval :=
  match l with
  | [] => None
  | (j, t) :: rest => if Nat.eqb id j then Some t else findInterval id rest
  end.

Fixpoint updateInterval (id : nat) (t : Interval) (l : list (nat * Interval))
  : list (nat * Interval) :=
  match l with
  | [] => []
  | (j, u) :: rest =>
      if Nat.eqb id j then (j, t) :: rest
      else (j, u) :: updateInterval id t rest
  end.

Definition startAutoCapture (s : State) : State :=
  if VideoSource_eqb (videoSource s) none then s
  else if autoCapturing (auto s) then s
  else
    let a := auto s in
    let id := nextTimerId a in
    withAuto
      (mkAutoCapture true (nth_error stationOrder 0) (Some id)
                     (intervals a ++ [(id, mkInterval 0 (closureOf s))])
                     (S id))
      s.

(** The interval callback of timer [id]. *)
Definition autoTick (id : nat) (input : option string) (s : State) : State :=
  match findInterval id (intervals (auto s)) with
  | None => s
  | Some t =>
      let a := auto s in
      match nth_error stationOrder (currentIndex t) with
      | Some station =>
          let s1 :=
            withAuto
              (mkAutoCapture (autoCapturing a) (Some station)
                             (autoCaptureTimerRef a)
                             (updateInterval
                                id (mkInterval (S (currentIndex t)) (env t))
                                (intervals a))
                             (nextTimerId a))
              s in
          captureFromFeed (env t) Auto station input s1
      | None =>
          withAuto
            (mkAutoCapture false None None
                           (clearInterval (autoCaptureTimerRef a)
                                          (intervals a))
                           (nextTimerId a))
            s
      end
  end.

(** *** Video source selection *)

(** The effect that stops the sequencer when the source becomes [none]. *)
Definition stopOnNone (s : State) : State :=
  let a := auto s in
  match videoSource s, autoCaptureTimerRef a with
  | none, Some id =>
      withAuto (mkAutoCapture false None None
                              (clearInterval (Some id) (intervals a))
                              (nextTimerId a)) s
  | _, _ => s
  end.

(** The effect that starts the station webcams when the source becomes
    [webcam]: one call of [startStationWebcam] per station is scheduled
    ([initWebcams().then], then a 100 ms timeout); neither is cancelled by
    a later change of source. *)
Definition startOnWebcam (s : State) : State :=
  let i := inFlight s in
  withInFlight
    match videoSource s with
    | webcam => mkInFlight (pbMap S (startingStreams i))
                           (pollingStations i) (pollingLegacy i)
    | _ => i
    end
    s.

(** [setVideoSource(v)] with the effects keyed on [videoSource]: every
    station stream is stopped, new streams are requested when the new
    source is [webcam], and the sequencer is stopped when it is [none]. *)
Definition setVideoSource (v : VideoSource) (s : State) : State :=
  if VideoSource_eqb v (videoSource s) then s
  else stopOnNone
         (startOnWebcam
            (setStationWebcams (pbAll false) (withVideoSource v s))).

(** The continuation of [getUserMedia] in [startStationWebcam]: the stream
    is stored whatever the source is by now. *)
Definition streamObtained (block : Block) (s : State) : State :=
  let i := inFlight s in
  withInFlight
    (mkInFlight (pbSet (startingStreams i) block
                       (Nat.pred (pbGet (startingStreams i) block)))
                (pollingStations i) (pollingLegacy i))
    (setStationWebcams (pbSet (stationWebcams s) block true) s).

(** [handleStationWebcamChange] under the webcam source: the station's
    stream is stopped and a new one is requested (after a 300 ms
    timeout). *)
Definition webcamChange (block : Block) (s : State) : State :=
  let i := inFlight s in
  withInFlight
    (mkInFlight (pbSet (startingStreams i) block
                       (S (pbGet (startingStreams i) block)))
                (pollingStations i) (pollingLegacy i))
    (setStationWebcams (pbSet (stationWebcams s) block false) s).

(** The poll timer fires: the four station fetches are sent. *)
Definition pollStart (s : State) : State :=
  let i := inFlight s in
  withInFlight (mkInFlight (startingStreams i) (S (pollingStations i))
                           (pollingLegacy i)) s.

Definition stationsDone (s : State) : State :=
  let i := inFlight s in
  withInFlight (mkInFlight (startingStreams i) (Nat.pred (pollingStations i))
                           (S (pollingLegacy i))) s.

Definition legacyDone (s : State) : State :=
  let i := inFlight s in
  withInFlight (mkInFlight (startingStreams i) (pollingStations i)
                           (Nat.pred (pollingLegacy i))) s.

(** The handler of the master CLEAR button. *)
Definition clearAll (s : State) : State :=
  let a := auto s in
  let s1 :=
    withAuto (mkAutoCapture false None None
                            (clearInterval (autoCaptureTimerRef a)
                                           (intervals a))
                            (nextTimerId a)) s in
  let s2 := setVideoSource none s1 in
  let f := piFeed s2 in
  withPiFeed (mkPiFeed (stationPiFeeds f) (stationConnectionStatus f)
                       None None (piStats f) (piStatus f)) s2.

(** *** Events *)

Definition isLive (s : State) (block : Block) : bool :=
  match videoSource s with
  | pi => true
  | webcam => pbGet (stationWebcams s) block
  | rpi => pbGet (selectedRpiCamera s) block
  | none => false
  end.

Inductive Event : Type :=
| SelectSource (v : VideoSource)
| ClearAll
| StreamObtained (block : Block)
| PollTick (feeds : PerBlock (option FeedData)) (legacy : option LegacyData)
           (currentTime : Qc)
| CaptureClick (block : Block) (input : option string)
| UploadFile (block : Block) (beforeImageUrl : string)
| ResetClick (block : Block)
| AutoCaptureClick
| AutoTick (id : nat) (input : option string)
| Response (n : nat) (o : Outcome)
| PollStart
| StationsAnswered (feeds : PerBlock (option FeedData)) (currentTime : Qc)
| LegacyAnswered (legacy : option LegacyData)
| WebcamChange (block : Block).

(** One transition.  A control that is not rendered, or disabled, in the
    current state cannot fire, and a continuation cannot run unless its
    work is in flight: such an event leaves the state alone.  [PollTick] is
    a poll whose three transitions follow one another directly. *)
Definition step (s : State) (e : Event) : State :=
  match e with
  | SelectSource v =>
      match v with
      | rpi => s
      | _ => setVideoSource v s
      end
  | ClearAll =>
      if VideoSource_eqb (videoSource s) none then s else clearAll s
  | StreamObtained block =>
      if Nat.ltb 0 (pbGet (startingStreams (inFlight s)) block)
      then streamObtained block s
      else s
  | PollTick feeds legacy currentTime =>
      if VideoSource_eqb (videoSource s) pi
      then pollTick feeds legacy currentTime s
      else s
  | CaptureClick block input =>
      if isLive s block && negb (truthyO (afterImage (pbGet (blocks s) block)))
      then captureFromFeed (closureOf s) Manual block input s
      else s
  | UploadFile block beforeImageUrl =>
      if negb (truthyO (afterImage (pbGet (blocks s) block)))
      then submit block beforeImageUrl FromUpload s
      else s
  | ResetClick block =>
      let slot := pbGet (blocks s) block in
      if truthyO (beforeImage slot) || truthyO (afterImage slot) || loading slot
      then resetBlock block s
      else s
  | AutoCaptureClick =>
      if VideoSource_eqb (videoSource s) none || autoCapturing (auto s)
      then s
      else startAutoCapture s
  | AutoTick id input => autoTick id input s
  | Response n o => respond n o s
  | PollStart =>
      if VideoSource_eqb (videoSource s) pi then pollStart s else s
  | StationsAnswered feeds currentTime =>
      if Nat.ltb 0 (pollingStations (inFlight s))
      then stationsAnswered feeds currentTime (stationsDone s)
      else s
  | LegacyAnswered legacy =>
      if Nat.ltb 0 (pollingLegacy (inFlight s))
      then legacyAnswered legacy (legacyDone s)
      else s
  | WebcamChange block =>
      if VideoSource_eqb (videoSource s) webcam
      then webcamChange block s
      else s
  end.

Definition run (s : State) (es : list Event) : State := fold_left step es s.

Inductive reachable : State -> Prop :=
| reach_init : reachable initialState
| reach_step s e : reachable s -> reachable (step s e).

(** *** Observations used by the properties *)

(** Outstanding analysis requests of a station. *)
Definition outstanding (s : State) (block : Block) : nat :=
  List.length (filter (fun r => Block_eqb (req_block r) block) (pending s)).

(** Stations whose capture the sequencer has initiated, oldest first. *)
Definition autoCalls (s : State) : list Block :=
  map snd (filter (fun c => match fst c with Auto => true | Manual => false end)
                  (captureCalls s)).

Definition idle (s : State) : Prop :=
  autoCapturing (auto s) = false /\
  currentAutoStation (auto s) = None /\
  autoCaptureTimerRef (auto s) = None /\
  intervals (auto s) = [].

(** The sequencer is running on timer [id], [k] captures initiated. *)
Definition running (id k : nat) (s : State) : Prop :=
  autoCapturing (auto s) = true /\
  currentAutoStation (auto s) = nth_error stationOrder (Nat.pred k) /\
  autoCaptureTimerRef (auto s) = Some id /\
  exists c, intervals (auto s) = [(id, mkInterval k c)].

(** The events that concern the station streams and the polls only. *)
Definition outside (e : Event) : bool :=
  match e with
  | StreamObtained _ | PollTick _ _ _ | PollStart | StationsAnswered _ _
  | LegacyAnswered _ | WebcamChange _ => true
  | _ => false
  end.

(** Events that end or restart a sequence from outside. *)
Definition interferes (e : Event) : bool :=
  match e with
  | ClearAll | SelectSource none | AutoCaptureClick => true
  | _ => false
  end.

Definition isTick (id : nat) (e : Event) : bool :=
  match e with
  | AutoTick j _ => Nat.eqb id j
  | _ => false
  end.

Definition ticks (id : nat) (es : list Event) : nat :=
  List.length (filter (isTick id) es).

(** A run of events none of which cancels or restarts the sequencer. *)
Definition quiet (es : list Event) : bool :=
  forallb (fun e => negb (interferes e)) es.

(** *** Sample states and inputs *)

Definition webcamSelected : State := step initialState (SelectSource webcam).

(** Five ticks of the first timer, whatever each capture's frame. *)
Definition fiveTicks : list Event :=
  [AutoTick 1 (Some "data:,f"); AutoTick 1 (Some "data:,l");
   AutoTick 1 None; AutoTick 1 (Some "data:,b"); AutoTick 1 None].

(** A render under the remote feed with no station frame cached and only
    the legacy feed's annotated image present. *)
Definition sharedOnly : Closure :=
  mkClosure pi (pbAll None) None (Some "data:image/jpeg;base64,QQ==")
            (pbAll false) (pbAll false).

Definition legacyOnly : LegacyData :=
  mkLegacyData (SStr "QQ==") SUndefined (lit 0) (lit 0) (lit 0).

(** Every busy slot has an analysis request outstanding. *)
Definition busyBacked (s : State) : Prop :=
  forall b, loading (pbGet (blocks s) b) = true -> (1 <= outstanding s b)%nat.

(** The remote feed with a frame cached for the front station, and one
    manual capture of it under way. *)
Definition frontFrame : PerBlock (option FeedData) :=
  pbSet (pbAll None) front
        (Some (mkFeedData (SStr "QQ==") (num 1700000000))).

Definition frontBusy : State :=
  run initialState
      [SelectSource pi;
       PollTick frontFrame None (qc 1700000001);
       CaptureClick front (Some "")].

(** A station answer carrying a frame stamped [age] seconds before
    [currentTime]. *)
Definition frameAged (age currentTime : Qc) : option FeedData :=
  Some (mkFeedData (SStr "QQ==") (JNum (currentTime - age))).

(** The connectivity cells stored by a poll tick. *)
Definition polledStatus feeds legacy currentTime (s : State)
  : PerBlock ConnectionStatus :=
  stationConnectionStatus (piFeed (pollTick feeds legacy currentTime s)).

(** No field of the slot went from holding something to holding nothing. *)
Definition keeps (old new : BlockState) : Prop :=
  (beforeImage new = None -> beforeImage old = None) /\
  (afterImage new = None -> afterImage old = None) /\
  (analysisResult new = emptyResult -> analysisResult old = emptyResult).

(** The failures after which both capture paths run their [catch] block:
    the request itself failed, or, on the upload path, the body came
    without an annotated image. *)
Inductive caught : Path -> Outcome -> Prop :=
| caught_thrown path : caught path Threw
| caught_no_image resData :
    truthyS (rd_annotatedImage resData) = false ->
    caught FromUpload (Returned resData).

End LiveFeed.

(** ** The bill shown by the receipt ([PaymentReceipt.tsx]) *)

Module Receipt.

(** The four amounts under "Individual Line Items", computed from the
    [serviceRecord] prop that [App] passes to the receipt. *)
Definition dentRepair (r : App.ServiceRecord) : JsNumber :=
  (App.dents_count r * lit 500)%f64.
Definition scratchRepair (r : App.ServiceRecord) : JsNumber :=
  (App.scratches_count r * lit 300)%f64.
Definition brakeService (r : App.ServiceRecord) : JsNumber :=
  (App.brake_wear_rate r * lit 20)%f64.
Definition diagnosticFee : JsNumber := lit 500.

(** The amount under "Total Amount". *)
Definition totalAmount (r : App.ServiceRecord) : JsNumber := App.total_cost r.

End Receipt.

(** ** Webcam device assignment ([initWebcams]) *)

Module Webcams.

(** [a || b] on strings: the empty string is the only falsy one. *)
Definition orStr (a b : string) : string := if a =? "" then b else a.

(** [videoDevices[i]?.deviceId || rest] *)
Definition deviceOr (videoDevices : list string) (i : nat) (rest : string)
  : string :=
  match nth_error videoDevices i with
  | Some deviceId => orStr deviceId rest
  | None => rest
  end.

(** The [selectedDeviceId] cells after [initWebcams].  [probe] is the list
    of device ids of the enumerated video inputs, or [None] when the
    permission request or the enumeration threw (caught and logged). *)
Definition initWebcams (probe : option (list string)) (prev : PerBlock string)
  : PerBlock string :=
  match probe with
  | None => prev
  | Some videoDevices =>
      if Nat.ltb 0 (List.length videoDevices)
      then mkPerBlock
             (orStr (at_front prev) (deviceOr videoDevices 0 ""))
             (orStr (at_left prev)
                    (deviceOr videoDevices 1 (deviceOr videoDevices 0 "")))
             (orStr (at_right prev)
                    (deviceOr videoDevices 2 (deviceOr videoDevices 0 "")))
             (orStr (at_brake prev)
                    (deviceOr videoDevices 3 (deviceOr videoDevices 0 "")))
      else prev
  end.

End Webcams.

(** ** RPi camera list ([removeRpiCamera], snapshot address) *)

Module RpiConfig.

Record RpiCamera : Type := mkRpiCamera {
  id : string;
  name : string;
  url : string
}.

Record Config : Type := mkConfig {
  availableRpiCameras : list RpiCamera;
  selectedRpiCameras : PerBlock string
}.

(** The state updates of [removeRpiCamera]: the camera is filtered out of
    the list and every station that selected it goes back to no selection. *)
Definition removeRpiCamera (cameraId : string) (c : Config) : Config :=
  let updatedCameras :=
    filter (fun cam => negb (id cam =? cameraId)) (availableRpiCameras c) in
  let clear (selected : string) : string :=
    if selected =? cameraId then "" else selected in
  let prev := selectedRpiCameras c in
  mkConfig updatedCameras
           (mkPerBlock (clear (at_front prev)) (clear (at_left prev))
                       (clear (at_right prev)) (clear (at_brake prev))).

(** The station selector: [{ ...selectedRpiCameras, [block]: value }]. *)
Definition selectRpiCamera (block : Block) (value : string) (c : Config)
  : Config :=
  mkConfig (availableRpiCameras c) (pbSet (selectedRpiCameras c) block value).

(** The values the station selector offers: no selection, or the id of a
    listed camera. *)
Definition offered (value : string) (c : Config) : bool :=
  (value =? "") || existsb (fun cam => id cam =? value) (availableRpiCameras c).

(** [availableRpiCameras.find(cam => cam.id === selectedCameraId)] *)
Definition findCamera (selectedCameraId : string) (c : Config)
  : option RpiCamera :=
  find (fun cam => id cam =? selectedCameraId) (availableRpiCameras c).

(** The two early returns of the [rpi] branch of [captureFromFeed]. *)
Inductive Lookup : Type :=
| NoCameraSelected
| CameraNotFound
| Camera (cam : RpiCamera).

Definition selectedCamera (block : Block) (c : Config) : Lookup :=
  let selectedCameraId := pbGet (selectedRpiCameras c) block in
  if selectedCameraId =? "" then NoCameraSelected
  else match findCamera selectedCameraId c with
       | Some cam => Camera cam
       | None => CameraNotFound
       end.

Inductive Event : Type :=
| Remove (cameraId : string)
| Select (block : Block) (value : string).

Definition step (c : Config) (e : Event) : Config :=
  match e with
  | Remove cameraId => removeRpiCamera cameraId c
  | Select block value =>
      if offered value c then selectRpiCamera block value c else c
  end.

(** [s.replace(pattern, replacement)] with a string pattern: the first
    occurrence only. *)
Fixpoint replaceFirst (pattern replacement s : string) : string :=
  if String.prefix pattern s
  then replacement ++ substring (String.length pattern)
                                (String.length s - String.length pattern) s
  else match s with
       | EmptyString => EmptyString
       | String ch rest => String ch (replaceFirst pattern replacement rest)
       end.

Definition run (c : Config) (es : list Event) : Config := fold_left step es c.

(** Every station either selects nothing or selects a listed camera. *)
Definition valid (c : Config) : Prop :=
  forall block, selectedCamera block c <> CameraNotFound.

(** A list of two cameras, the front station on the first, the brake
    station on the second. *)
Definition twoCameras : Config :=
  mkConfig [mkRpiCamera "rpi_1" "Bay" "http://10.0.0.5:8080/stream";
            mkRpiCamera "rpi_2" "Pit" "http://10.0.0.6:8080/stream"]
           (mkPerBlock "rpi_1" "" "" "rpi_2").

(** [selectedCamera.url.replace('/stream', '/snapshot')] *)
Definition snapshotUrl (cam : RpiCamera) : string :=
  replaceFirst "/stream" "/snapshot" (url cam).

End RpiConfig.

(** ** Derived views of the live-feed state *)

Module Views.
Import LiveFeed.

(** The sequencer cells are coherent: idle with no timer left, or running on
    one timer whose index is within the station order, under some source. *)
Definition sequencerOk (s : State) : Prop :=
  idle s \/
  (videoSource s <> none /\ exists id k, (k <= 4)%nat /\ running id k s).

(** The sequencer runs on timer [id], [k] captures initiated, and the
    timer's callback closes over the render [c]. *)
Definition armed (id k : nat) (c : Closure) (s : State) : Prop :=
  running id k s /\ intervals (auto s) = [(id, mkInterval k c)].

(** [blocksList.indexOf(x)] *)
Fixpoint indexOfFrom (x : option Block) (l : list Block) (i : Z) : Z :=
  match l with
  | [] => (-1)%Z
  | y :: rest =>
      if match x with
         | Some b => Block_eqb b y
         | None => false
         end
      then i
      else indexOfFrom x rest (i + 1)%Z
  end.

(** The [n] of the button text [CAPTURING n/4...]. *)
Definition progress (s : State) : Z :=
  (indexOfFrom (currentAutoStation (auto s)) blocksList 0 + 1)%Z.


(** The image [captureFromFeed] takes under the remote feed. *)
Definition piSource (c : Closure) (block : Block) : option string :=
  orElse (orElse (pbGet (c_stationPiFeeds c) block) (c_piRawImage c))
         (c_piImage c).

(** The request a capture of [block] sends under the remote feed when it
    reads its images from the render [c]: none when [c] has no image. *)
Definition piRequests (c : Closure) (block : Block) : list Request :=
  match piSource c block with
  | Some image =>
      if truthyO (Some image) then [mkRequest block image FromFeed] else []
  | None => []
  end.

(** A slot shows an annotated image exactly when it holds a result. *)
Definition settled (b : BlockState) : Prop :=
  match afterImage b with
  | Some _ => brakeStatus (analysisResult b) <> None
  | None => analysisResult b = emptyResult
  end.

Definition allSettled (s : State) : Prop :=
  forall b, settled (pbGet (blocks s) b).

(** What a poll tick caches for a station, given the station's answer. *)
Definition cachedFrame (r : option FeedData) : option string :=
  match r with
  | Some data =>
      if truthyS (fd_annotatedImage data)
      then Some (dataUrl (fd_annotatedImage data))
      else None
  | None => None
  end.

(** Two polls: the first caches a frame for the front station, the second
    finds every station silent. *)
Definition cachedThenSilent : State :=
  run initialState
      [SelectSource pi; PollTick frontFrame None (qc 1700000001)].

Definition silentPoll : Event := PollTick (pbAll None) None (qc 1700000009).

End Views.

(** * Properties *)

(** ** Station records *)

Lemma pbGet_pbSet_same {T} (p : PerBlock T) (b : Block) (v : T) :
  pbGet (pbSet p b v) b = v.
Proof. destruct b; reflexivity. Qed.

Lemma pbGet_pbSet_other {T} (p : PerBlock T) (b b' : Block) (v : T) :
  b' <> b -> pbGet (pbSet p b v) b' = pbGet p b'.
Proof. destruct b, b'; intros H; try reflexivity; now elim H. Qed.

Lemma pbGet_pbAll {T} (v : T) (b : Block) : pbGet (pbAll v) b = v.
Proof. destruct b; reflexivity. Qed.

(** ** Binary64 arithmetic on small integers

    Sums and products of non-negative integers are exact in binary64 as long
    as the result stays below [2^53]. *)

Section Binary64.
Local Open Scope Z_scope.

Lemma digits2_size (m : positive) : digits2_pos m = Pos.size m.
Proof. induction m; simpl; congruence. Qed.

Lemma digits2_log2 (m : positive) : Zpos (digits2_pos m) = Z.log2 (Zpos m) + 1.
Proof.
  rewrite digits2_size. destruct m; simpl; lia.
Qed.

(** [iter_pos], the iteration of the rounding functions, as [Nat.iter]. *)
Lemma iter_pos_nat {A} (f : A -> A) (p : positive) (x : A) :
  iter_pos f p x = Nat.iter (Pos.to_nat p) f x.
Proof.
  revert x. induction p; intros x.
  - rewrite Pos2Nat.inj_xI. cbn [iter_pos]. rewrite !IHp.
    replace (S (2 * Pos.to_nat p))%nat with (Pos.to_nat p + S (Pos.to_nat p))%nat by lia.
    rewrite Nat.iter_add, Nat.iter_succ_r. reflexivity.
  - rewrite Pos2Nat.inj_xO. cbn [iter_pos]. rewrite !IHp.
    replace (2 * Pos.to_nat p)%nat with (Pos.to_nat p + Pos.to_nat p)%nat by lia.
    rewrite Nat.iter_add. reflexivity.
  - reflexivity.
Qed.

(** Shifting out [k] zero bits loses nothing. *)
Lemma shr_exact (k : nat) (m m0 : positive) :
  Zpos m = Zpos m0 * 2 ^ Z.of_nat k ->
  Nat.iter k shr_1 (Build_shr_record (Zpos m) false false)
  = Build_shr_record (Zpos m0) false false.
Proof.
  revert m. induction k; intros m H.
  - simpl in *. f_equal. lia.
  - rewrite Nat.iter_succ_r.
    rewrite Nat2Z.inj_succ, Z.pow_succ_r in H by lia.
    destruct m as [q|q|]; try lia.
    simpl. apply IHk. lia.
Qed.

(** Rounding is the identity on a number that fits: a mantissa which is a
    53-bit [m0] followed by zeros rounds to [m0] at the raised exponent. *)
Lemma round_exact (s : bool) (m m0 : positive) (e e0 : Z) :
  e <= e0 -> Zpos m = Zpos m0 * 2 ^ (e0 - e) ->
  Z.log2 (Zpos m0) = 52 -> -1074 <= e0 <= 971 ->
  binary_round_aux 53 1024 s (Zpos m) e loc_Exact = S754_finite s m0 e0.
Proof.
  intros He Hm Hl Hb.
  assert (Hd : Z.log2 (Zpos m) = 52 + (e0 - e)).
  { rewrite Hm, Z.log2_mul_pow2 by lia. lia. }
  unfold binary_round_aux.
  assert (H1 : shr_fexp 53 1024 (Zpos m) e loc_Exact
               = (Build_shr_record (Zpos m0) false false, e0)).
  { unfold shr_fexp, Zdigits2. rewrite digits2_log2, Hd.
    unfold fexp, emin, shr_record_of_loc.
    replace (Z.max (52 + (e0 - e) + 1 + e - 53) (3 - 1024 - 53) - e) with (e0 - e) by lia.
    unfold shr. destruct (e0 - e) as [|p|p] eqn:E; try lia.
    - f_equal; [|lia]. f_equal. rewrite Hm. simpl. lia.
    - rewrite iter_pos_nat. f_equal; [|lia].
      apply shr_exact. rewrite positive_nat_Z. exact Hm. }
  rewrite H1. cbn [shr_m loc_of_shr_record round_nearest_even].
  assert (H2 : shr_fexp 53 1024 (Zpos m0) e0 loc_Exact
               = (Build_shr_record (Zpos m0) false false, e0)).
  { unfold shr_fexp, Zdigits2. rewrite digits2_log2, Hl.
    unfold fexp, emin, shr_record_of_loc.
    replace (Z.max (52 + 1 + e0 - 53) (3 - 1024 - 53) - e0) with 0 by lia.
    reflexivity. }
  cbn [loc_of_shr_record] in *. rewrite H2. cbn [shr_m].
  replace (e0 <=? 1024 - 53) with true by (symmetry; apply Z.leb_le; lia).
  reflexivity.
Qed.

Lemma iter_xO (p d : positive) : Zpos (Pos.iter xO p d) = Zpos p * 2 ^ Zpos d.
Proof.
  induction d using Pos.peano_ind.
  - simpl. lia.
  - rewrite Pos.iter_succ, Pos2Z.inj_succ, Z.pow_succ_r by lia.
    rewrite Pos2Z.inj_xO, IHd. lia.
Qed.

Lemma shl_align_value (m : positive) (e e' : Z) :
  e' <= e ->
  shl_align m e e' = (Z.to_pos (Zpos m * 2 ^ (e - e')), e').
Proof.
  intros H. unfold shl_align.
  destruct (e' - e) as [|d|d] eqn:E; try lia.
  - replace (e - e') with 0 by lia. replace e' with e by lia.
    rewrite Z.pow_0_r, Z.mul_1_r. reflexivity.
  - f_equal. replace (e - e') with (Zpos d) by lia.
    rewrite <- iter_xO. reflexivity.
Qed.

Lemma shl_align_keeps (m : positive) (e e' : Z) :
  e <= e' -> shl_align m e e' = (m, e).
Proof.
  intros H. unfold shl_align. destruct (e' - e) eqn:E; try lia; reflexivity.
Qed.

Lemma log2_53 (z : Z) : 0 < z < 2 ^ 53 -> 0 <= Z.log2 z <= 52.
Proof.
  intros H. split; [apply Z.log2_nonneg|].
  assert (Z.log2 z < 53) by (apply Z.log2_lt_pow2; lia). lia.
Qed.

Lemma mantissa_pos (z : Z) : 0 < z < 2 ^ 53 -> 0 < z * 2 ^ (52 - Z.log2 z).
Proof.
  intros H. pose proof (log2_53 z H).
  apply Z.mul_pos_pos; [lia|]. apply Z.pow_pos_nonneg; lia.
Qed.

Lemma mantissa_value (z : Z) :
  0 < z < 2 ^ 53 ->
  Zpos (Z.to_pos (z * 2 ^ (52 - Z.log2 z))) = z * 2 ^ (52 - Z.log2 z).
Proof. intros H. apply Z2Pos.id, mantissa_pos, H. Qed.

Lemma mantissa_log2 (z : Z) :
  0 < z < 2 ^ 53 ->
  Z.log2 (Zpos (Z.to_pos (z * 2 ^ (52 - Z.log2 z)))) = 52.
Proof.
  intros H. pose proof (log2_53 z H).
  rewrite mantissa_value, Z.log2_mul_pow2 by lia. lia.
Qed.

(** A dyadic literal whose numerator is below [2^53] is not rounded. *)
Lemma dyadic_fin (z g : Z) :
  0 < z < 2 ^ 53 -> -1022 <= g <= 919 -> dyadic z g = fin z g.
Proof.
  intros Hz Hg. pose proof (log2_53 z Hz) as Hl.
  unfold dyadic, binary_normalize, fin.
  destruct z as [|p|p]; try lia.
  unfold binary_round.
  rewrite digits2_log2. unfold fexp, emin.
  replace (Z.max (Z.log2 (Zpos p) + 1 + g - 53) (3 - 1024 - 53))
    with (g + Z.log2 (Zpos p) - 52) by lia.
  rewrite shl_align_value by lia.
  replace (g - (g + Z.log2 (Zpos p) - 52)) with (52 - Z.log2 (Zpos p)) by lia.
  apply round_exact.
  - lia.
  - rewrite Z.sub_diag, Z.pow_0_r. lia.
  - apply mantissa_log2, Hz.
  - lia.
Qed.

Lemma pow2_add (x y : Z) : 0 <= x -> 0 <= y -> 2 ^ (x + y) = 2 ^ x * 2 ^ y.
Proof. intros. apply Z.pow_add_r; assumption. Qed.

Lemma mul_pow2 (x p q : Z) :
  0 <= p -> 0 <= q -> x * 2 ^ p * 2 ^ q = x * 2 ^ (p + q).
Proof. intros. rewrite pow2_add by assumption. ring. Qed.

(** Products and sums whose integer mantissa stays below [2^53] are exact. *)
Lemma mul_fin (a b g h : Z) :
  0 < a -> 0 < b -> a * b < 2 ^ 53 -> -1022 <= g + h <= 919 ->
  SFmul 53 1024 (fin a g) (fin b h) = fin (a * b) (g + h).
Proof.
  intros Ha Hb Hab Hg.
  assert (Ha' : 0 < a < 2 ^ 53) by nia.
  assert (Hb' : 0 < b < 2 ^ 53) by nia.
  assert (Hp : 0 < a * b < 2 ^ 53) by nia.
  pose proof (log2_53 a Ha') as La. pose proof (log2_53 b Hb') as Lb.
  pose proof (log2_53 _ Hp) as Lab.
  pose proof (Z.log2_mul_below a b Ha Hb) as Lm.
  unfold fin, SFmul. cbn [xorb].
  apply round_exact.
  - lia.
  - rewrite Pos2Z.inj_mul, !mantissa_value by assumption.
    replace (g + h + Z.log2 (a * b) - 52 - (g + Z.log2 a - 52 + (h + Z.log2 b - 52)))
      with (Z.log2 (a * b) - Z.log2 a - Z.log2 b + 52) by lia.
    transitivity (a * b * 2 ^ (52 - Z.log2 a) * 2 ^ (52 - Z.log2 b)); [ring|].
    rewrite !mul_pow2 by lia. do 2 f_equal. lia.
  - apply mantissa_log2, Hp.
  - lia.
Qed.

Lemma add_fin (a b g : Z) :
  0 < a -> 0 < b -> a + b < 2 ^ 53 -> -1022 <= g <= 919 ->
  SFadd 53 1024 (fin a g) (fin b g) = fin (a + b) g.
Proof.
  intros Ha Hb Hab Hg.
  assert (Ha' : 0 < a < 2 ^ 53) by lia.
  assert (Hb' : 0 < b < 2 ^ 53) by lia.
  assert (Hp : 0 < a + b < 2 ^ 53) by lia.
  pose proof (log2_53 a Ha') as La. pose proof (log2_53 b Hb') as Lb.
  pose proof (log2_53 _ Hp) as Lab.
  assert (La' : Z.log2 a <= Z.log2 (a + b)) by (apply Z.log2_le_mono; lia).
  assert (Lb' : Z.log2 b <= Z.log2 (a + b)) by (apply Z.log2_le_mono; lia).
  unfold fin, SFadd.
  set (ea := g + Z.log2 a - 52). set (eb := g + Z.log2 b - 52).
  set (ez := Z.min ea eb).
  rewrite !shl_align_value by (unfold ez; lia).
  cbn [fst cond_Zopp]. rewrite !mantissa_value by assumption.
  assert (Hs : Z.to_pos (a * 2 ^ (52 - Z.log2 a) * 2 ^ (ea - ez)) =
               Z.to_pos (a * 2 ^ (g - ez))).
  { f_equal. rewrite <- Z.mul_assoc, <- pow2_add by (unfold ea, ez; lia).
    do 2 f_equal. unfold ea. lia. }
  assert (Ht : Z.to_pos (b * 2 ^ (52 - Z.log2 b) * 2 ^ (eb - ez)) =
               Z.to_pos (b * 2 ^ (g - ez))).
  { f_equal. rewrite <- Z.mul_assoc, <- pow2_add by (unfold eb, ez; lia).
    do 2 f_equal. unfold eb. lia. }
  rewrite Hs, Ht.
  assert (Hpow : 0 < 2 ^ (g - ez)) by (apply Z.pow_pos_nonneg; unfold ez, ea, eb; lia).
  rewrite !Z2Pos.id by nia.
  replace (a * 2 ^ (g - ez) + b * 2 ^ (g - ez)) with ((a + b) * 2 ^ (g - ez)) by ring.
  unfold binary_normalize.
  destruct ((a + b) * 2 ^ (g - ez)) as [|m|m] eqn:Em; try nia.
  unfold binary_round.
  assert (Hd : Z.log2 (Zpos m) = Z.log2 (a + b) + (g - ez)).
  { rewrite <- Em, Z.log2_mul_pow2; unfold ez, ea, eb; lia. }
  rewrite digits2_log2, Hd. unfold fexp, emin.
  replace (Z.max (Z.log2 (a + b) + (g - ez) + 1 + ez - 53) (3 - 1024 - 53))
    with (g + Z.log2 (a + b) - 52) by lia.
  rewrite shl_align_keeps by (unfold ez, ea, eb; lia).
  apply round_exact.
  - unfold ez, ea, eb; lia.
  - rewrite <- Em, mantissa_value by assumption.
    rewrite <- Z.mul_assoc, <- pow2_add by (unfold ez, ea, eb; lia).
    do 2 f_equal. lia.
  - apply mantissa_log2, Hp.
  - lia.
Qed.

(** [2z * 2^g] and [z * 2^(g+1)] are the same float. *)
Lemma fin_double (z g : Z) :
  0 < z -> 2 * z < 2 ^ 53 -> fin (2 * z) g = fin z (g + 1).
Proof.
  intros Hz Hb. pose proof (log2_53 (2 * z) ltac:(lia)) as Hl.
  rewrite Z.log2_double in Hl by assumption.
  unfold fin. rewrite Z.log2_double by assumption.
  f_equal; [|lia]. f_equal.
  replace (52 - Z.log2 z) with (Z.succ (52 - Z.succ (Z.log2 z))) by lia.
  rewrite Z.pow_succ_r by lia. ring.
Qed.

Lemma ofZ_fin (z : Z) : 0 < z < 2 ^ 53 -> ofZ z = fin z 0.
Proof. intros H. apply dyadic_fin; lia. Qed.

(** On non-negative integers: addition, multiplication, the charge of a
    half-integer wear rate and the comparison with 0. *)
Lemma ofZ_add (a b : Z) :
  0 <= a -> 0 <= b -> a + b < 2 ^ 53 ->
  SFadd 53 1024 (ofZ a) (ofZ b) = ofZ (a + b).
Proof.
  intros Ha Hb H.
  destruct (Z.eq_dec b 0) as [->|Nb].
  { rewrite Z.add_0_r. destruct (Z.eq_dec a 0) as [->|Na]; [reflexivity|].
    rewrite ofZ_fin by lia. reflexivity. }
  destruct (Z.eq_dec a 0) as [->|Na].
  { rewrite Z.add_0_l, (ofZ_fin b) by lia. reflexivity. }
  rewrite !ofZ_fin by lia. apply add_fin; lia.
Qed.

Lemma ofZ_mul (a b : Z) :
  0 <= a < 2 ^ 53 -> 0 <= b < 2 ^ 53 -> a * b < 2 ^ 53 ->
  SFmul 53 1024 (ofZ a) (ofZ b) = ofZ (a * b).
Proof.
  intros Ha Hb H.
  destruct (Z.eq_dec b 0) as [->|Nb].
  { rewrite Z.mul_0_r. destruct (Z.eq_dec a 0) as [->|Na]; [reflexivity|].
    rewrite ofZ_fin by lia. reflexivity. }
  destruct (Z.eq_dec a 0) as [->|Na].
  { rewrite Z.mul_0_l, (ofZ_fin b) by lia. reflexivity. }
  rewrite !ofZ_fin by nia. apply mul_fin; lia.
Qed.

Lemma half_times_20 (k : Z) :
  0 <= k -> 20 * k < 2 ^ 53 ->
  SFmul 53 1024 (dyadic k (-1)) (ofZ 20) = ofZ (10 * k).
Proof.
  intros Hk H.
  destruct (Z.eq_dec k 0) as [->|Nk]; [reflexivity|].
  rewrite dyadic_fin, (ofZ_fin 20), (ofZ_fin (10 * k)) by lia.
  rewrite mul_fin by lia.
  replace (k * 20) with (2 * (10 * k)) by ring.
  rewrite fin_double by lia. reflexivity.
Qed.

Lemma ofZ_positive (z : Z) : 0 <= z < 2 ^ 53 -> SFltb (ofZ 0) (ofZ z) = (0 <? z).
Proof.
  intros H. destruct (Z.eq_dec z 0) as [->|Nz]; [reflexivity|].
  rewrite (ofZ_fin z) by lia. transitivity true; [reflexivity|].
  symmetry. apply Z.ltb_lt. lia.
Qed.

(** An integer literal below [2^53] stands for that integer. *)
Lemma intOf_ofZ (z : Z) : 0 <= z < 2 ^ 53 -> intOf (ofZ z) = z.
Proof.
  intros H. destruct (Z.eq_dec z 0) as [->|Nz]; [reflexivity|].
  assert (Hz : 0 < z < 2 ^ 53) by lia.
  pose proof (log2_53 z Hz) as Hl.
  rewrite ofZ_fin by assumption. unfold fin, intOf.
  destruct (0 + Z.log2 z - 52) as [|p|p] eqn:E; try lia.
  - rewrite mantissa_value by assumption.
    replace (52 - Z.log2 z) with 0 by lia. rewrite Z.pow_0_r. lia.
  - rewrite mantissa_value by assumption.
    replace (52 - Z.log2 z) with (Zpos p) by lia.
    apply Z.div_mul. apply Z.pow_nonzero; lia.
Qed.

Lemma valueOf_ofZ (z : Z) :
  0 <= z < 2 ^ 53 ->
  exists q, valueOf (ofZ z) = Some q /\ Qeq q (inject_Z z).
Proof.
  intros H. destruct (Z.eq_dec z 0) as [->|Nz].
  { exists 0%Q. split; reflexivity. }
  assert (Hz : 0 < z < 2 ^ 53) by lia.
  pose proof (log2_53 z Hz) as Hl.
  rewrite ofZ_fin by assumption. unfold fin, valueOf.
  eexists. split; [reflexivity|].
  destruct (0 + Z.log2 z - 52) as [|p|p] eqn:E; try lia.
  - rewrite mantissa_value by assumption.
    replace (52 - Z.log2 z) with 0 by lia. rewrite Z.pow_0_r.
    unfold Qeq. simpl. lia.
  - rewrite mantissa_value by assumption.
    replace (52 - Z.log2 z) with (Zpos p) by lia.
    unfold Qeq. cbn [Qnum Qden inject_Z].
    rewrite Z2Pos.id by (apply Z.pow_pos_nonneg; lia). lia.
Qed.

(** [half k] stands for [k / 2]. *)
Lemma valueOf_half (k : Z) :
  0 < k < 2 ^ 53 ->
  exists q, valueOf (dyadic k (-1)) = Some q /\ Qeq q (Qmake k 2).
Proof.
  intros Hk. pose proof (log2_53 k Hk) as Hl.
  rewrite dyadic_fin by lia. unfold fin, valueOf.
  eexists. split; [reflexivity|].
  destruct (-1 + Z.log2 k - 52) as [|p|p] eqn:E; try lia.
  rewrite mantissa_value by assumption.
  unfold Qeq. cbn [Qnum Qden].
  rewrite Z2Pos.id by (apply Z.pow_pos_nonneg; lia).
  replace (Zpos p) with (Z.succ (52 - Z.log2 k)) by lia.
  rewrite Z.pow_succ_r by lia. change (Zpos 2) with 2. ring.
Qed.

Lemma nadd_lit (a b : Z) :
  0 <= a -> 0 <= b -> a + b < 2 ^ 53 -> nadd (lit a) (lit b) = lit (a + b).
Proof. intros. unfold nadd, lit. cbn [toFloat]. now rewrite ofZ_add. Qed.

Lemma nmul_lit (a b : Z) :
  0 <= a < 2 ^ 53 -> 0 <= b < 2 ^ 53 -> a * b < 2 ^ 53 ->
  nmul (lit a) (lit b) = lit (a * b).
Proof. intros. unfold nmul, lit. cbn [toFloat]. now rewrite ofZ_mul. Qed.

Lemma nmul_half_20 (k : Z) :
  0 <= k -> 20 * k < 2 ^ 53 -> nmul (half k) (lit 20) = lit (10 * k).
Proof. intros. unfold nmul, lit, half. cbn [toFloat]. now rewrite half_times_20. Qed.

Lemma ngt_lit (z : Z) : 0 <= z < 2 ^ 53 -> ngt (lit z) (lit 0) = (0 <? z).
Proof. intros. unfold ngt, lit. cbn [toFloat]. now apply ofZ_positive. Qed.


End Binary64.

(** ** Cost aggregation *)

Section CostAggregation.
Import App.
Local Open Scope Z_scope.

Lemma nullish_lit (z : Z) (d : JsNumber) : nullish (lit z) d = lit z.
Proof. reflexivity. Qed.

Lemma nullish_half (k : Z) (d : JsNumber) : nullish (half k) d = half k.
Proof. reflexivity. Qed.

Lemma countOf_lit (z : Z) : small z -> countOf (lit z) = z.
Proof. unfold small. intros H. apply intOf_ofZ. lia. Qed.

(** The total of four entries of small integer counts under the rate
    [twiceRate / 2]. *)
Lemma totalOf_integers (fs fd ls ld rs rd bs bd twiceRate : Z)
      (f l r b : FeedEntry) :
  small fs -> small fd -> small ls -> small ld ->
  small rs -> small rd -> small bs -> small bd -> small twiceRate ->
  fa_scratches f = lit fs -> fa_dents f = lit fd ->
  fa_scratches l = lit ls -> fa_dents l = lit ld ->
  fa_scratches r = lit rs -> fa_dents r = lit rd ->
  fa_scratches b = lit bs -> fa_dents b = lit bd ->
  totalOf (mkPerBlock (Some f) (Some l) (Some r) (Some b)) (half twiceRate)
  = lit (fs * 300 + fd * 500 + (ls * 300 + ld * 500)
         + (rs * 300 + rd * 500) + (bs * 300 + bd * 500)
         + twiceRate * 10 + 500).
Proof.
  unfold small.
  intros Hfs Hfd Hls Hld Hrs Hrd Hbs Hbd Hk Efs Efd Els Eld Ers Erd Ebs Ebd.
  unfold totalOf. cbn [entryOr at_front at_left at_right at_brake].
  rewrite Efs, Efd, Els, Eld, Ers, Erd, Ebs, Ebd.
  rewrite !nullish_lit, nullish_half.
  rewrite nmul_half_20 by lia.
  rewrite !nmul_lit by lia.
  rewrite !nadd_lit by lia.
  f_equal. lia.
Qed.

Lemma entryIntegral_counts (e : option FeedEntry) :
  entryIntegral e ->
  exists n m, small n /\ small m /\
              fa_scratches (entryOr e) = lit n /\ fa_dents (entryOr e) = lit m.
Proof.
  destruct e as [x|]; cbn [entryIntegral entryOr].
  - intros ((n & Hn & En) & (m & Hm & Em)). eauto 8.
  - intros _. exists 0, 0. unfold small. repeat split; try lia.
Qed.

Lemma totalOf_charges (fa : FeedAnalysis) :
  (forall b, entryIntegral (pbGet fa b)) ->
  totalOf fa (half 91) = lit (stationCharges fa + 1410) /\
  0 <= stationCharges fa /\ stationCharges fa + 1410 < 2 ^ 53.
Proof.
  intros Hfa.
  destruct (entryIntegral_counts _ (Hfa front)) as (fs & fd & Hfs & Hfd & Efs & Efd).
  destruct (entryIntegral_counts _ (Hfa left)) as (ls & ld & Hls & Hld & Els & Eld).
  destruct (entryIntegral_counts _ (Hfa right)) as (rs & rd & Hrs & Hrd & Ers & Erd).
  destruct (entryIntegral_counts _ (Hfa brake)) as (bs & bd & Hbs & Hbd & Ebs & Ebd).
  cbn [pbGet] in Efs, Efd, Els, Eld, Ers, Erd, Ebs, Ebd.
  assert (Hc : stationCharges fa
               = fs * 300 + fd * 500 + (ls * 300 + ld * 500)
                 + (rs * 300 + rd * 500) + (bs * 300 + bd * 500)).
  { unfold stationCharges, entryCharge, stationCharge. cbn [fst snd].
    rewrite Efs, Efd, Els, Eld, Ers, Erd, Ebs, Ebd.
    rewrite !countOf_lit by assumption. reflexivity. }
  split; [|unfold small in *; lia].
  rewrite Hc.
  transitivity (totalOf (mkPerBlock (Some (entryOr (at_front fa)))
                                    (Some (entryOr (at_left fa)))
                                    (Some (entryOr (at_right fa)))
                                    (Some (entryOr (at_brake fa))))
                        (half 91)); [reflexivity|].
  rewrite (totalOf_integers fs fd ls ld rs rd bs bd 91)
    by (assumption || (unfold small; lia)).
  f_equal. lia.
Qed.

Lemma smallCount_stored (v : JsNumber) :
  smallCount v ->
  small (countOf v) /\ nullish v (lit 0) = lit (countOf v).
Proof.
  intros [-> | [-> | (n & Hn & ->)]].
  - split; [unfold small; cbn; lia | reflexivity].
  - split; [unfold small; cbn; lia | reflexivity].
  - rewrite nullish_lit, countOf_lit by assumption. now split.
Qed.

Lemma handleAnalysisComplete_integral block result s :
  integral s -> smallCount (scratches result) -> smallCount (dents result) ->
  integral (handleAnalysisComplete block result s).
Proof.
  intros (Hfa & Hrate & Hsc & Hdc) Hs Hd.
  split; [|now repeat split].
  intros b. cbn [handleAnalysisComplete feedAnalysis].
  destruct (Block_eqb b block) eqn:E.
  - assert (b = block) as -> by (destruct b, block; simpl in E; congruence).
    rewrite pbGet_pbSet_same. cbn [entryIntegral fa_scratches fa_dents].
    destruct (smallCount_stored _ Hs) as (H1 & ->).
    destruct (smallCount_stored _ Hd) as (H2 & ->).
    split; [exists (countOf (scratches result))
           | exists (countOf (dents result))]; now split.
  - rewrite pbGet_pbSet_other.
    + apply Hfa.
    + intros ->. destruct block; discriminate.
Qed.

Lemma initialState_integral : integral initialState.
Proof.
  split; [|now repeat split].
  intros b. destruct b; cbn; split; exists 0; unfold small; split;
    try reflexivity; lia.
Qed.

Lemma reachable_integral s : reachable s -> integral s.
Proof.
  induction 1.
  - apply initialState_integral.
  - now apply handleAnalysisComplete_integral.
Qed.

(** C1 (amended). For every assignment of non-negative integer scratch and
    dent counts below [2^40] to the four stations and every brake-wear rate
    that is a non-negative multiple of 0.5 below [2^39], [updateTotalCost] stores
    exactly the sum over the stations of [scratches * 300 + dents * 500],
    plus [rate * 20], plus the flat 500, whatever total was stored before:
    an integer below [2^53], whose value is the real sum [realTotal] of the
    counts and the rate.  For the worked example (front 2/1, left 0/0,
    right 1/0, brake 0/0, rate 45.5, the rate of the initial service
    record) the total is 2810. *)
Theorem updateTotalCost_sums_integer_counts
        (counts : PerBlock (Z * Z)) (others : PerBlock FeedEntry)
        (twiceRate : Z) (before : FeedAnalysis) (record : ServiceRecord) :
  (forall b, small (fst (pbGet counts b)) /\ small (snd (pbGet counts b))) ->
  small twiceRate ->
  brake_wear_rate record = half twiceRate ->
  let stored :=
    total_cost
      (serviceRecord
         (updateTotalCost (analysisWith (integerCounts counts) others)
                          (mkAppState before record))) in
  stored = lit (specTotal counts twiceRate) /\
  0 <= specTotal counts twiceRate < 2 ^ 53 /\
  (exists total : Q,
      valueOf (toFloat stored) = Some total /\
      Qeq total (realTotal (realCounts counts) (Qmake twiceRate 2))) /\
  total_cost
    (serviceRecord
       (updateTotalCost (analysisWith (integerCounts exampleCounts)
                                      (pbAll initialEntry))
                        initialState))
  = lit 2810.
Proof.
  intros Hc Hk Hrate stored.
  pose proof (Hc front) as [Hfs Hfd]. pose proof (Hc left) as [Hls Hld].
  pose proof (Hc right) as [Hrs Hrd]. pose proof (Hc brake) as [Hbs Hbd].
  destruct counts as [[fs fd] [ls ld] [rs rd] [bs bd]].
  cbn [pbGet at_front at_left at_right at_brake fst snd] in *.
  assert (Hb : 0 <= specTotal (mkPerBlock (fs, fd) (ls, ld) (rs, rd) (bs, bd))
                              twiceRate < 2 ^ 53)
    by (unfold specTotal, stationCharge, small in *; cbn; lia).
  assert (Hstored : stored = lit (specTotal (mkPerBlock (fs, fd) (ls, ld)
                                                        (rs, rd) (bs, bd))
                                            twiceRate)).
  { subst stored. cbn [updateTotalCost serviceRecord total_cost].
    rewrite Hrate. unfold analysisWith, integerCounts, integers.
    cbn [at_front at_left at_right at_brake fst snd].
    rewrite (totalOf_integers fs fd ls ld rs rd bs bd twiceRate)
      by (assumption || reflexivity).
    f_equal. unfold specTotal, stationCharge. cbn. lia. }
  split; [exact Hstored|split; [exact Hb|split]].
  - destruct (valueOf_ofZ _ Hb) as (q & Hq & Hqe).
    exists q. rewrite Hstored. split; [exact Hq|]. rewrite Hqe.
    unfold specTotal, stationCharge, realTotal, realCounts, pbMap.
    cbn [fold_right blocksList pbGet at_front at_left at_right at_brake
         fst snd].
    unfold Qeq. cbn. lia.
  - vm_compute. reflexivity.
Qed.

Lemma updateTotalCost_sums_integer_counts_witness :
  total_cost
    (serviceRecord
       (updateTotalCost (analysisWith (integerCounts exampleCounts)
                                      (pbAll initialEntry))
                        initialState))
  = lit (specTotal exampleCounts 91).
Proof.
  refine (proj1 (updateTotalCost_sums_integer_counts
                   exampleCounts (pbAll initialEntry) 91
                   (feedAnalysis initialState) (serviceRecord initialState)
                   _ _ _)).
  - intros b. destruct b; unfold small; cbn; lia.
  - unfold small. lia.
  - reflexivity.
Defined.

(** C1, inputs on which the claim fails.  With 1.711 scratches at the front
    station and every other count 0, the stored total is a binary64 number
    that differs from the real sum [1.711 * 300 + 45.5 * 20 + 500] taken on
    the very same inputs: the product and the sums are rounded.  Likewise
    with every count 0 and the rate 0.07. *)
Lemma updateTotalCost_rounds_fractional_input :
  (exists scratches total : Q,
      valueOf (ratio 1711 1000) = Some scratches /\
      valueOf
        (toFloat
           (total_cost
              (serviceRecord
                 (updateTotalCost (analysisWith fractionalCounts
                                                (pbAll initialEntry))
                                  initialState))))
      = Some total /\
      ~ Qeq total
            (realTotal (mkPerBlock (scratches, 0%Q) (0%Q, 0%Q) (0%Q, 0%Q)
                                   (0%Q, 0%Q))
                       (455 # 10))) /\
  (exists rate total : Q,
      valueOf (ratio 7 100) = Some rate /\
      valueOf
        (toFloat
           (total_cost
              (serviceRecord
                 (updateTotalCost
                    (analysisWith (integerCounts (pbAll (0, 0)%Z))
                                  (pbAll initialEntry))
                    (mkAppState (feedAnalysis initialState)
                                (mkServiceRecord (lit 0) (lit 0)
                                                 (NNum (ratio 7 100))
                                                 (lit 0)))))))
      = Some total /\
      ~ Qeq total (realTotal (pbAll (0%Q, 0%Q)) rate)).
Proof.
  split.
  - eexists. eexists.
    split; [vm_compute; reflexivity|].
    split; [vm_compute; reflexivity|].
    vm_compute. discriminate.
  - eexists. eexists.
    split; [vm_compute; reflexivity|].
    split; [vm_compute; reflexivity|].
    vm_compute. discriminate.
Qed.




End CostAggregation.

(** ** Capture slots *)

Section CaptureSlots.
Import LiveFeed.

Lemma Block_eqb_eq (a b : Block) : Block_eqb a b = true <-> a = b.
Proof. destruct a, b; simpl; split; congruence. Qed.

Lemma Block_eqb_refl (a : Block) : Block_eqb a a = true.
Proof. now destruct a. Qed.

Lemma pbGet_pbSet {T} (p : PerBlock T) (b b' : Block) (v : T) :
  pbGet (pbSet p b v) b' = if Block_eqb b' b then v else pbGet p b'.
Proof. destruct b, b'; reflexivity. Qed.

Lemma keeps_refl (x : BlockState) : keeps x x.
Proof. repeat split; auto. Qed.

(** C8. [resetBlock] puts the empty slot at its station and leaves the
    three other slots as they were; it does not read the video source, so
    the outcome is the same under every source, and the rest of the
    component state is untouched. *)
Theorem resetBlock_clears_only_its_slot (s : State) (block : Block) :
  pbGet (blocks (resetBlock block s)) block = emptyBlock /\
  (forall b : Block,
      pbGet (blocks (resetBlock block s)) b
      = if Block_eqb b block then emptyBlock else pbGet (blocks s) b) /\
  (forall v : VideoSource,
      blocks (resetBlock block (withVideoSource v s))
      = blocks (resetBlock block s)) /\
  videoSource (resetBlock block s) = videoSource s /\
  pending (resetBlock block s) = pending s.
Proof.
  repeat split.
  - simpl. apply pbGet_pbSet_same.
  - intros b. simpl. apply pbGet_pbSet.
Qed.

Lemma blocks_setVideoSource (v : VideoSource) (s : State) :
  blocks (setVideoSource v s) = blocks s.
Proof.
  unfold setVideoSource, stopOnNone.
  destruct (VideoSource_eqb v (videoSource s)); [reflexivity|].
  simpl. destruct v; try reflexivity.
  destruct (autoCaptureTimerRef (auto s)); reflexivity.
Qed.

Lemma blocks_clearAll (s : State) : blocks (clearAll s) = blocks s.
Proof. unfold clearAll. simpl. now rewrite blocks_setVideoSource. Qed.

Lemma blocks_pollTick feeds legacy now (s : State) :
  blocks (pollTick feeds legacy now s) = blocks s.
Proof.
  unfold pollTick, legacyAnswered, stationsAnswered.
  destruct (pollStations feeds now).
  destruct legacy as [data|]; [|reflexivity].
  destruct (truthyS (ld_annotatedImage data)); reflexivity.
Qed.

Lemma blocks_stationsAnswered feeds now (s : State) :
  blocks (stationsAnswered feeds now s) = blocks s.
Proof. unfold stationsAnswered. now destruct (pollStations feeds now). Qed.

Lemma blocks_legacyAnswered legacy (s : State) :
  blocks (legacyAnswered legacy s) = blocks s.
Proof.
  unfold legacyAnswered. destruct legacy as [data|]; [|reflexivity].
  destruct (truthyS (ld_annotatedImage data)); reflexivity.
Qed.

(** The transitions that only move streams and remote-feed cells. *)
Lemma step_outside (s : State) (e : Event) :
  outside e = true ->
  blocks (step s e) = blocks s /\
  pending (step s e) = pending s /\
  auto (step s e) = auto s /\
  captureCalls (step s e) = captureCalls s /\
  delivered (step s e) = delivered s /\
  videoSource (step s e) = videoSource s.
Proof.
  destruct e as [v| |blk|feeds legacy now|blk input|blk img|blk| |id input|n o| |feeds' now'|legacy'|blk'];
    intros H; try discriminate; cbn [step].
  - destruct (Nat.ltb 0 (pbGet (startingStreams (inFlight s)) blk));
      repeat split.
  - destruct (VideoSource_eqb (videoSource s) pi); [|repeat split].
    unfold pollTick, legacyAnswered, stationsAnswered.
  destruct (pollStations feeds now).
    destruct legacy as [data|]; [|repeat split].
    destruct (truthyS (ld_annotatedImage data)); repeat split.
  - destruct (VideoSource_eqb (videoSource s) pi); repeat split.
  - destruct (Nat.ltb 0 (pollingStations (inFlight s))); [|repeat split].
    unfold stationsAnswered. destruct (pollStations feeds' now').
    repeat split.
  - destruct (Nat.ltb 0 (pollingLegacy (inFlight s))); [|repeat split].
    unfold legacyAnswered. destruct legacy' as [data|]; [|repeat split].
    destruct (truthyS (ld_annotatedImage data)); repeat split.
  - destruct (VideoSource_eqb (videoSource s) webcam); repeat split.
Qed.

Lemma keeps_submit block image path (s : State) (b : Block) :
  keeps (pbGet (blocks s) b) (pbGet (blocks (submit block image path s)) b).
Proof.
  simpl. rewrite pbGet_pbSet.
  destruct (Block_eqb b block) eqn:E; [|apply keeps_refl].
  apply Block_eqb_eq in E; subst b.
  repeat split; simpl; auto; discriminate.
Qed.

Lemma keeps_captureFromFeed c o block input (s : State) (b : Block) :
  keeps (pbGet (blocks s) b)
        (pbGet (blocks (captureFromFeed c o block input s)) b).
Proof.
  unfold captureFromFeed.
  destruct (acquire c (logCall o block s) block input).
  - apply (keeps_submit block s0 FromFeed (logCall o block s) b).
  - apply keeps_refl.
Qed.

Lemma keeps_onCatch block (s : State) (b : Block) :
  keeps (pbGet (blocks s) b) (pbGet (blocks (onCatch block s)) b).
Proof.
  simpl. rewrite pbGet_pbSet.
  destruct (Block_eqb b block) eqn:E; [|apply keeps_refl].
  apply Block_eqb_eq in E; subst b. repeat split; simpl; auto.
Qed.

Lemma keeps_onResult req resData (s : State) (b : Block) :
  keeps (pbGet (blocks s) b) (pbGet (blocks (onResult req resData s)) b).
Proof.
  simpl. rewrite pbGet_pbSet.
  destruct (Block_eqb b (req_block req)) eqn:E; [|apply keeps_refl].
  apply Block_eqb_eq in E; subst b.
  repeat split; simpl; auto; discriminate.
Qed.

Lemma keeps_respond n o (s : State) (b : Block) :
  keeps (pbGet (blocks s) b) (pbGet (blocks (respond n o s)) b).
Proof.
  unfold respond. destruct (nth_error (pending s) n) as [req|];
    [|apply keeps_refl].
  set (s1 := withPending (removeNth n (pending s)) s).
  change (blocks s) with (blocks s1).
  unfold settle. destruct o as [|resData].
  - apply keeps_onCatch.
  - destruct (req_path req).
    + apply keeps_onResult.
    + destruct (negb (truthyS (rd_annotatedImage resData))).
      * apply keeps_onCatch.
      * apply keeps_onResult.
Qed.

Lemma keeps_autoTick id input (s : State) (b : Block) :
  keeps (pbGet (blocks s) b) (pbGet (blocks (autoTick id input s)) b).
Proof.
  unfold autoTick. destruct (findInterval id (intervals (auto s))) as [t|];
    [|apply keeps_refl].
  destruct (nth_error stationOrder (currentIndex t)) as [station|];
    [|apply keeps_refl].
  match goal with
  | |- keeps _ (pbGet (blocks (captureFromFeed _ _ _ _ ?s1)) _) =>
      change (blocks s) with (blocks s1)
  end.
  apply keeps_captureFromFeed.
Qed.

(** C9. Selecting a video source, and the master clear action, leave the
    four capture slots exactly as they were; and among all transitions of
    the component, only the reset of a station can empty a field of that
    station's slot. *)
Theorem source_change_keeps_slots :
  (forall (v : VideoSource) (s : State),
      blocks (setVideoSource v s) = blocks s) /\
  (forall s : State, blocks (clearAll s) = blocks s) /\
  (forall (v : VideoSource) (s : State),
      blocks (step s (SelectSource v)) = blocks s) /\
  (forall s : State, blocks (step s ClearAll) = blocks s) /\
  (forall (s : State) (e : Event) (b : Block),
      e = ResetClick b \/
      keeps (pbGet (blocks s) b) (pbGet (blocks (step s e)) b)).
Proof.
  split; [exact blocks_setVideoSource|].
  split; [exact blocks_clearAll|].
  split.
  { intros v s. destruct v; simpl; auto using blocks_setVideoSource. }
  split.
  { intros s. simpl. destruct (VideoSource_eqb (videoSource s) none);
      auto using blocks_clearAll. }
  intros s e b.
  destruct e as [v| |blk|feeds legacy now|blk input|blk img|blk| |id input|n o| |feeds' now'|legacy'|blk'].
  - right. destruct v; simpl; try rewrite blocks_setVideoSource;
      apply keeps_refl.
  - right. simpl. destruct (VideoSource_eqb (videoSource s) none);
      try rewrite blocks_clearAll; apply keeps_refl.
  - right. rewrite (proj1 (step_outside s (StreamObtained blk) eq_refl)).
    apply keeps_refl.
  - right. simpl. destruct (VideoSource_eqb (videoSource s) pi);
      try rewrite blocks_pollTick; apply keeps_refl.
  - right. simpl.
    destruct (isLive s blk && negb (truthyO (afterImage (pbGet (blocks s) blk)))).
    + apply keeps_captureFromFeed.
    + apply keeps_refl.
  - right. simpl.
    destruct (negb (truthyO (afterImage (pbGet (blocks s) blk)))).
    + apply keeps_submit.
    + apply keeps_refl.
  - destruct (Block_eqb b blk) eqn:E.
    + left. apply Block_eqb_eq in E. now subst.
    + right. simpl.
      destruct (truthyO (beforeImage (pbGet (blocks s) blk))
                || truthyO (afterImage (pbGet (blocks s) blk))
                || loading (pbGet (blocks s) blk)); [|apply keeps_refl].
      simpl. rewrite pbGet_pbSet, E. apply keeps_refl.
  - right. simpl.
    destruct (VideoSource_eqb (videoSource s) none || autoCapturing (auto s));
      [apply keeps_refl|].
    unfold startAutoCapture.
    destruct (VideoSource_eqb (videoSource s) none); [apply keeps_refl|].
    destruct (autoCapturing (auto s)); apply keeps_refl.
  - right. apply keeps_autoTick.
  - right. apply keeps_respond.
  - right. rewrite (proj1 (step_outside s PollStart eq_refl)). apply keeps_refl.
  - right. rewrite (proj1 (step_outside s (StationsAnswered feeds' now') eq_refl)).
    apply keeps_refl.
  - right. rewrite (proj1 (step_outside s (LegacyAnswered legacy') eq_refl)).
    apply keeps_refl.
  - right. rewrite (proj1 (step_outside s (WebcamChange blk') eq_refl)).
    apply keeps_refl.
Qed.

End CaptureSlots.

(** ** Failed analyses *)

Section FailedAnalysis.
Import LiveFeed.

Lemma removeNth_last {A} (l : list A) (x : A) :
  removeNth (List.length l) (l ++ [x]) = l.
Proof. induction l; simpl; congruence. Qed.

Lemma nth_error_last {A} (l : list A) (x : A) :
  nth_error (l ++ [x]) (List.length l) = Some x.
Proof. induction l; simpl; auto. Qed.

(** C3 (amended). When the analysis request of a capture fails (network
    error, non-2xx status), on either path, or when the body lacks the
    annotated image on the upload path, the slot keeps the annotated image
    and the result it had before the capture and its busy flag is cleared;
    its [beforeImage] holds the submitted still.  The other slots and the
    results handed to the aggregator are untouched. *)
Theorem failed_analysis_keeps_result
        (s : State) (block : Block) (image : string) (path : Path)
        (o : Outcome) :
  caught path o ->
  let s1 := submit block image path s in
  let s2 := step s1 (Response (List.length (pending s)) o) in
  pbGet (blocks s2) block
  = mkBlockState (Some image) (afterImage (pbGet (blocks s) block)) false
                 (analysisResult (pbGet (blocks s) block)) /\
  (forall b, pbGet (blocks s2) b
             = if Block_eqb b block then pbGet (blocks s2) block
               else pbGet (blocks s) b) /\
  delivered s2 = delivered s /\
  pending s2 = pending s.
Proof.
  intros Hc s1 s2.
  assert (Hs2 : s2 = onCatch block (withPending (pending s) s1)).
  { subst s2. unfold step, respond. subst s1.
    cbn [pending submit withPending].
    rewrite nth_error_last, removeNth_last.
    unfold settle. cbn [req_block req_path].
    destruct Hc as [p|resData H]; [reflexivity|].
    now rewrite H. }
  rewrite Hs2. subst s1. simpl.
  rewrite !pbGet_pbSet_same. simpl.
  repeat split.
  intros b. rewrite !pbGet_pbSet.
  destruct (Block_eqb b block); reflexivity.
Qed.

Lemma failed_analysis_keeps_result_witness :
  pbGet (blocks (step (submit front "data:,still" FromUpload initialState)
                      (Response 0 Threw))) front
  = mkBlockState (Some "data:,still") None false emptyResult.
Proof.
  exact (proj1 (failed_analysis_keeps_result
                  initialState front "data:,still" FromUpload Threw
                  (caught_thrown FromUpload))).
Defined.

(** C3 as stated fails: after an upload whose analysis request failed, the
    slot is not the slot that was never captured. *)
Lemma failed_capture_is_not_pristine :
  let s1 := step initialState (UploadFile front "data:,still") in
  let s2 := step s1 (Response 0 Threw) in
  loading (pbGet (blocks s2) front) = false /\
  pbGet (blocks s2) front <> pbGet (blocks initialState) front.
Proof. split; [reflexivity|]. vm_compute. discriminate. Qed.

(** The feed path has no test of [annotatedImage]: a 2xx body without it is
    taken as a success, and the slot shows a data URL built from
    [undefined]. *)
Lemma captureFromFeed_takes_body_without_image
      (s : State) (block : Block) (image : string) (resData : ResData) :
  let s' := settle (mkRequest block image FromFeed) (Returned resData) s in
  afterImage (pbGet (blocks s') block)
  = Some (dataUrl (rd_annotatedImage resData)) /\
  dataUrl SUndefined = "data:image/jpeg;base64,undefined".
Proof. simpl. now rewrite pbGet_pbSet_same. Qed.

End FailedAnalysis.

(** ** Remote-feed capture *)

Section RemoteFeedCapture.
Import LiveFeed.

(** C6 (amended). Under the remote feed, a capture for a station without a
    cached frame takes the shared legacy feed instead: its raw image if
    there is one, else its annotated image.  Only when that is absent too
    does the capture store nothing. *)
Theorem pi_capture_falls_back_to_shared_feed
        (c : Closure) (o : Origin) (block : Block) (s : State) :
  c_videoSource c = pi ->
  truthyO (pbGet (c_stationPiFeeds c) block) = false ->
  let shared := orElse (c_piRawImage c) (c_piImage c) in
  (truthyO shared = false ->
   forall input,
     blocks (captureFromFeed c o block input s) = blocks s /\
     pending (captureFromFeed c o block input s) = pending s) /\
  (truthyO shared = true ->
   forall fetched,
   exists image,
     shared = Some image /\
     beforeImage (pbGet (blocks (captureFromFeed c o block (Some fetched) s))
                        block) = Some image /\
     loading (pbGet (blocks (captureFromFeed c o block (Some fetched) s))
                    block) = true /\
     pending (captureFromFeed c o block (Some fetched) s)
     = (pending s ++ [mkRequest block image FromFeed])%list).
Proof.
  intros Hpi Hfeed shared.
  assert (Hsrc : orElse (orElse (pbGet (c_stationPiFeeds c) block)
                                (c_piRawImage c)) (c_piImage c) = shared).
  { subst shared. unfold orElse. now rewrite Hfeed. }
  split; intros Hsh.
  - intros input. unfold captureFromFeed, acquire.
    rewrite Hpi, Hsrc, Hsh. simpl. auto.
  - intros fetched. destruct shared as [image|] eqn:E; [|discriminate].
    exists image. unfold captureFromFeed, acquire.
    rewrite Hpi, Hsrc, Hsh. simpl.
    rewrite pbGet_pbSet_same. simpl. auto.
Qed.

Lemma pi_capture_falls_back_to_shared_feed_witness :
  exists image,
    Some "data:image/jpeg;base64,QQ==" = Some image /\
    beforeImage
      (pbGet (blocks (captureFromFeed sharedOnly Manual front (Some "")
                                      initialState)) front) = Some image /\
    loading
      (pbGet (blocks (captureFromFeed sharedOnly Manual front (Some "")
                                      initialState)) front) = true /\
    pending (captureFromFeed sharedOnly Manual front (Some "") initialState)
    = (pending initialState ++ [mkRequest front image FromFeed])%list.
Proof.
  exact (proj2 (pi_capture_falls_back_to_shared_feed
                  sharedOnly Manual front initialState
                  eq_refl eq_refl) eq_refl "").
Defined.

(** C6 as stated fails: with the remote feed selected and no frame ever
    received for the front station, a capture of that station goes through
    with the frame of the shared legacy feed. *)
Lemma pi_capture_substitutes_shared_frame :
  let s := run initialState
               [SelectSource pi;
                PollTick (pbAll None) (Some legacyOnly) (qc 1700000000)] in
  videoSource s = pi /\
  pbGet (stationPiFeeds (piFeed s)) front = None /\
  beforeImage (pbGet (blocks (step s (CaptureClick front (Some "")))) front)
  = Some "data:image/jpeg;base64,QQ==" /\
  pending (step s (CaptureClick front (Some "")))
  = [mkRequest front "data:image/jpeg;base64,QQ==" FromFeed].
Proof. vm_compute. repeat split. Qed.

End RemoteFeedCapture.

(** ** Auto-capture sequencer *)

Section Sequencer.
Import LiveFeed.
Local Open Scope nat_scope.

Lemma auto_captureFromFeed c o block input (s : State) :
  auto (captureFromFeed c o block input s) = auto s.
Proof.
  unfold captureFromFeed.
  destruct (acquire c (logCall o block s) block input); reflexivity.
Qed.

Lemma auto_respond n o (s : State) : auto (respond n o s) = auto s.
Proof.
  unfold respond. destruct (nth_error (pending s) n) as [req|]; [|reflexivity].
  unfold settle. destruct o as [|resData]; [reflexivity|].
  destruct (req_path req); [reflexivity|].
  destruct (negb (truthyS (rd_annotatedImage resData))); reflexivity.
Qed.

Lemma auto_pollTick feeds legacy now (s : State) :
  auto (pollTick feeds legacy now s) = auto s.
Proof.
  unfold pollTick, legacyAnswered, stationsAnswered.
  destruct (pollStations feeds now).
  destruct legacy as [data|]; [|reflexivity].
  destruct (truthyS (ld_annotatedImage data)); reflexivity.
Qed.

Lemma captureCalls_captureFromFeed c o block input (s : State) :
  captureCalls (captureFromFeed c o block input s)
  = (captureCalls s ++ [(o, block)])%list.
Proof.
  unfold captureFromFeed.
  destruct (acquire c (logCall o block s) block input); reflexivity.
Qed.

Lemma captureCalls_respond n o (s : State) :
  captureCalls (respond n o s) = captureCalls s.
Proof.
  unfold respond. destruct (nth_error (pending s) n) as [req|]; [|reflexivity].
  unfold settle. destruct o as [|resData]; [reflexivity|].
  destruct (req_path req); [reflexivity|].
  destruct (negb (truthyS (rd_annotatedImage resData))); reflexivity.
Qed.

Lemma captureCalls_pollTick feeds legacy now (s : State) :
  captureCalls (pollTick feeds legacy now s) = captureCalls s.
Proof.
  unfold pollTick, legacyAnswered, stationsAnswered.
  destruct (pollStations feeds now).
  destruct legacy as [data|]; [|reflexivity].
  destruct (truthyS (ld_annotatedImage data)); reflexivity.
Qed.

Lemma captureCalls_setVideoSource v (s : State) :
  captureCalls (setVideoSource v s) = captureCalls s.
Proof.
  unfold setVideoSource, stopOnNone.
  destruct (VideoSource_eqb v (videoSource s)); [reflexivity|].
  simpl. destruct v; try reflexivity.
  destruct (autoCaptureTimerRef (auto s)); reflexivity.
Qed.

Lemma autoCalls_app_manual (s s' : State) block :
  captureCalls s' = (captureCalls s ++ [(Manual, block)])%list ->
  autoCalls s' = autoCalls s.
Proof.
  unfold autoCalls. intros ->. rewrite filter_app, map_app. simpl.
  now rewrite app_nil_r.
Qed.

Lemma autoCalls_app_auto (s s' : State) block :
  captureCalls s' = (captureCalls s ++ [(Auto, block)])%list ->
  autoCalls s' = (autoCalls s ++ [block])%list.
Proof.
  unfold autoCalls. intros ->. now rewrite filter_app, map_app.
Qed.

Lemma autoCalls_same (s s' : State) :
  captureCalls s' = captureCalls s -> autoCalls s' = autoCalls s.
Proof. unfold autoCalls. now intros ->. Qed.

(** Selecting a source other than [none] leaves the sequencer alone. *)
Lemma auto_setVideoSource_live v (s : State) :
  v <> none -> auto (setVideoSource v s) = auto s.
Proof.
  intros Hv. unfold setVideoSource, stopOnNone.
  destruct (VideoSource_eqb v (videoSource s)); [reflexivity|].
  simpl. destruct v; try reflexivity. now elim Hv.
Qed.

Lemma idle_not_running (s : State) id k : idle s -> running id k s -> False.
Proof. intros (H & _) (H' & _). congruence. Qed.

Lemma outside_bystander (s : State) (e : Event) :
  outside e = true ->
  auto (step s e) = auto s /\ autoCalls (step s e) = autoCalls s.
Proof.
  intros H. destruct (step_outside s e H) as (_ & _ & Ha & Hc & _).
  split; [exact Ha|now apply autoCalls_same].
Qed.

(** Outside the sequencer's own tick, start and cancellations, no event
    touches the sequencer cells or adds a sequencer capture. *)
Lemma step_bystander (s : State) (e : Event) :
  interferes e = false ->
  (forall id input, e <> AutoTick id input) ->
  auto (step s e) = auto s /\ autoCalls (step s e) = autoCalls s.
Proof.
  intros Hi Ht.
  destruct e as [v| |blk|feeds legacy now|blk input|blk img|blk| |id input|n o| |feeds' now'|legacy'|blk'];
    simpl in Hi; try discriminate.
  - destruct v; try discriminate; simpl;
      (split; [apply auto_setVideoSource_live; discriminate
              |apply autoCalls_same, captureCalls_setVideoSource])
      || (split; reflexivity).
  - now apply outside_bystander.
  - now apply outside_bystander.
  - simpl.
    destruct (isLive s blk && negb (truthyO (afterImage (pbGet (blocks s) blk)))).
    + split; [apply auto_captureFromFeed|].
      eapply autoCalls_app_manual, captureCalls_captureFromFeed.
    + split; reflexivity.
  - simpl. destruct (negb (truthyO (afterImage (pbGet (blocks s) blk))));
      split; reflexivity.
  - simpl.
    destruct (truthyO (beforeImage (pbGet (blocks s) blk))
              || truthyO (afterImage (pbGet (blocks s) blk))
              || loading (pbGet (blocks s) blk)); split; reflexivity.
  - now elim (Ht id input).
  - simpl. split; [apply auto_respond|apply autoCalls_same, captureCalls_respond].
  - now apply outside_bystander.
  - now apply outside_bystander.
  - now apply outside_bystander.
  - now apply outside_bystander.
Qed.

Lemma running_of_auto (s s' : State) id k :
  auto s' = auto s -> running id k s -> running id k s'.
Proof. unfold running. now intros ->. Qed.

Lemma idle_of_auto (s s' : State) :
  auto s' = auto s -> idle s -> idle s'.
Proof. unfold idle. now intros ->. Qed.

(** A tick of the live timer: the station at the timer's index, if any, is
    captured and the index advances; past the last station the timer
    cancels itself. *)
Lemma autoTick_running (s : State) id k input :
  running id k s ->
  match nth_error stationOrder k with
  | Some station =>
      running id (S k) (autoTick id input s) /\
      captureCalls (autoTick id input s)
      = (captureCalls s ++ [(Auto, station)])%list
  | None =>
      idle (autoTick id input s) /\
      captureCalls (autoTick id input s) = captureCalls s
  end.
Proof.
  intros (Hrun & Hcur & Href & c & Hint).
  unfold autoTick. rewrite Hint. simpl. rewrite Nat.eqb_refl. simpl.
  destruct (nth_error stationOrder k) as [station|] eqn:Hk.
  - split.
    + unfold running. rewrite auto_captureFromFeed. simpl.
      repeat split; eauto.
    + now rewrite captureCalls_captureFromFeed.
  - split; [|reflexivity].
    unfold idle. simpl. rewrite Href. simpl.
    rewrite Nat.eqb_refl. auto.
Qed.

Lemma autoTick_other (s : State) id k j input :
  running id k s -> j <> id -> autoTick j input s = s.
Proof.
  intros (_ & _ & _ & c & Hint) Hj.
  unfold autoTick. rewrite Hint. simpl.
  now destruct (Nat.eqb_spec j id).
Qed.

Lemma autoTick_idle (s : State) j input : idle s -> autoTick j input s = s.
Proof. intros (_ & _ & _ & Hint). unfold autoTick. now rewrite Hint. Qed.

Lemma startAutoCapture_running (s : State) :
  videoSource s <> none -> idle s ->
  running (nextTimerId (auto s)) 0 (step s AutoCaptureClick) /\
  captureCalls (step s AutoCaptureClick) = captureCalls s /\
  blocks (step s AutoCaptureClick) = blocks s /\
  pending (step s AutoCaptureClick) = pending s.
Proof.
  intros Hv (Hrun & _ & _ & Hint).
  assert (Hn : VideoSource_eqb (videoSource s) none = false)
    by (destruct (videoSource s); auto; now elim Hv).
  simpl. unfold startAutoCapture. rewrite Hn, Hrun. simpl.
  repeat split; simpl; auto.
  rewrite Hint. simpl. eauto.
Qed.

Lemma clearAll_idle (s : State) :
  idle s \/ (exists id k, running id k s) -> idle (clearAll s).
Proof.
  intros H. unfold clearAll, idle. simpl.
  unfold setVideoSource, stopOnNone; simpl.
  destruct (videoSource s); simpl;
    (destruct H as [(_ & _ & _ & Hint)|(id & k & _ & _ & Href & c & Hint)];
     [rewrite Hint; simpl; destruct (autoCaptureTimerRef (auto s)); auto
     |rewrite Hint, Href; simpl; rewrite Nat.eqb_refl; auto]).
Qed.

Lemma setVideoSource_none_idle (s : State) :
  idle s \/ (exists id k, running id k s) ->
  idle (setVideoSource none s) \/ (exists id k, running id k (setVideoSource none s)).
Proof.
  intros H. unfold setVideoSource.
  destruct (VideoSource_eqb none (videoSource s)); [exact H|].
  unfold stopOnNone. simpl.
  destruct H as [Hi|(id & k & Hr)].
  - left. destruct Hi as (? & ? & Href & ?). rewrite Href. unfold idle; auto.
  - left. destruct Hr as (_ & _ & Href & c & Hint).
    rewrite Href. unfold idle. simpl. rewrite Hint. simpl.
    rewrite Nat.eqb_refl. auto.
Qed.

(** In every reachable state the sequencer is either idle, with no timer
    left, or running on exactly one timer. *)
Lemma reachable_idle_or_running (s : State) :
  reachable s -> idle s \/ (exists id k, running id k s).
Proof.
  induction 1 as [|s e Hreach IH].
  - left. repeat split.
  - destruct (interferes e) eqn:Hi.
    + destruct e as [v| | | | | | | | | | | | |]; try discriminate.
      * destruct v; try discriminate. simpl.
        now apply setVideoSource_none_idle.
      * simpl. destruct (VideoSource_eqb (videoSource s) none); [exact IH|].
        left. now apply clearAll_idle.
      * simpl.
        destruct (VideoSource_eqb (videoSource s) none) eqn:Hn; [exact IH|].
        destruct (autoCapturing (auto s)) eqn:Ha; [exact IH|]. simpl.
        destruct IH as [Hidle|(id & k & Hr)].
        -- right. exists (nextTimerId (auto s)), O.
           assert (Hv : videoSource s <> none)
             by (intros E; rewrite E in Hn; discriminate).
           pose proof (startAutoCapture_running s Hv Hidle) as (Hr & _).
           simpl in Hr. now rewrite Hn, Ha in Hr.
        -- destruct Hr as (Hr & _). congruence.
    + destruct e as [v| |blk|feeds legacy now|blk input|blk img|blk| |j input|n o| |feeds' now'|legacy'|blk'];
        try (destruct (step_bystander s _ Hi) as (Hauto & _);
             [intros; discriminate|];
             destruct IH as [Hidle|(id & k & Hr)];
             [left; eapply idle_of_auto; eauto
             |right; exists id, k; eapply running_of_auto; eauto]).
      change (step s (AutoTick j input)) with (autoTick j input s).
      destruct IH as [Hidle|(id & k & Hr)].
      * left. now rewrite autoTick_idle.
      * destruct (Nat.eq_dec j id) as [->|Hj].
        -- pose proof (autoTick_running s id k input Hr) as Ht.
           destruct (nth_error stationOrder k).
           ++ right. exists id, (S k). apply Ht.
           ++ left. apply Ht.
        -- right. exists id, k. now rewrite (autoTick_other s id k j input Hr Hj).
Qed.

Lemma reachable_accepting_idle (s : State) :
  reachable s -> autoCapturing (auto s) = false -> idle s.
Proof.
  intros Hreach Ha.
  destruct (reachable_idle_or_running s Hreach) as [Hi|(id & k & Hr & _)];
    [exact Hi|congruence].
Qed.

Lemma step_quiet_idle (s : State) (e : Event) :
  idle s -> interferes e = false ->
  idle (step s e) /\ autoCalls (step s e) = autoCalls s.
Proof.
  intros Hidle Hi.
  destruct e as [v| |blk|feeds legacy now|blk input|blk img|blk| |j input|n o| |feeds' now'|legacy'|blk'];
    try (destruct (step_bystander s _ Hi) as (Hauto & Hcalls);
         [intros; discriminate|];
         split; [eapply idle_of_auto; eauto|exact Hcalls]).
  change (step s (AutoTick j input)) with (autoTick j input s).
  rewrite autoTick_idle by assumption. auto.
Qed.

Lemma step_quiet_running (s : State) (e : Event) id k :
  running id k s -> interferes e = false -> isTick id e = false ->
  running id k (step s e) /\ autoCalls (step s e) = autoCalls s.
Proof.
  intros Hr Hi Ht.
  destruct e as [v| |blk|feeds legacy now|blk input|blk img|blk| |j input|n o| |feeds' now'|legacy'|blk'];
    try (destruct (step_bystander s _ Hi) as (Hauto & Hcalls);
         [intros; discriminate|];
         split; [eapply running_of_auto; eauto|exact Hcalls]).
  change (step s (AutoTick j input)) with (autoTick j input s).
  simpl in Ht. apply Nat.eqb_neq in Ht.
  rewrite (autoTick_other s id k j input Hr) by congruence. auto.
Qed.

Lemma step_tick_running (s : State) (e : Event) id k :
  running id k s -> isTick id e = true ->
  match nth_error stationOrder k with
  | Some station =>
      running id (S k) (step s e) /\
      autoCalls (step s e) = (autoCalls s ++ [station])%list
  | None =>
      idle (step s e) /\ autoCalls (step s e) = autoCalls s
  end.
Proof.
  intros Hr Ht. destruct e; try discriminate.
  simpl in Ht. apply Nat.eqb_eq in Ht. subst id0.
  change (step s (AutoTick id input)) with (autoTick id input s).
  pose proof (autoTick_running s id k input Hr) as H.
  destruct (nth_error stationOrder k) as [station|].
  - split; [apply H|]. eapply autoCalls_app_auto, H.
  - split; [apply H|]. eapply autoCalls_same, H.
Qed.

Lemma run_idle (es : list Event) :
  forall s, idle s -> quiet es = true ->
            idle (run s es) /\ autoCalls (run s es) = autoCalls s.
Proof.
  induction es as [|e es IH]; intros s Hidle Hq; [auto|].
  simpl in Hq. apply andb_prop in Hq as (He & Hq).
  apply negb_true_iff in He.
  destruct (step_quiet_idle s e Hidle He) as (Hidle' & Hcalls).
  destruct (IH _ Hidle' Hq) as (Hfin & Hc).
  simpl. split; [exact Hfin|congruence].
Qed.

Lemma ticks_cons id e es :
  ticks id (e :: es) = if isTick id e then S (ticks id es) else ticks id es.
Proof. unfold ticks. simpl. now destruct (isTick id e). Qed.

(** A running sequence that is left alone: after [n] further ticks of its
    timer it has initiated the next [n] stations of the order, and the
    tick that finds the order exhausted returns it to idle. *)
Lemma run_running id (es : list Event) :
  forall k s,
    running id k s -> quiet es = true ->
    k <= 4 -> k + ticks id es <= 5 ->
    autoCalls (run s es)
    = (autoCalls s ++ firstn (ticks id es) (skipn k stationOrder))%list /\
    (k + ticks id es < 5 -> running id (k + ticks id es) (run s es)) /\
    (k + ticks id es = 5 -> idle (run s es)).
Proof.
  induction es as [|e es IH]; intros k s Hr Hq Hk Hn.
  - unfold ticks. simpl. rewrite app_nil_r, Nat.add_0_r.
    split; [reflexivity|]. split; [now intros _|lia].
  - simpl in Hq. apply andb_prop in Hq as (He & Hq).
    apply negb_true_iff in He.
    rewrite ticks_cons in *. simpl run.
    destruct (isTick id e) eqn:Ht.
    + pose proof (step_tick_running s e id k Hr Ht) as Hstep.
      destruct k as [|[|[|[|[|k]]]]]; try lia; simpl in Hstep;
        destruct Hstep as (Hr' & Hc').
      1-4: (destruct (IH _ _ Hr' Hq) as (Hcalls & Hrun & Hidle); try lia;
            rewrite Hcalls, Hc', <- app_assoc; simpl;
            split; [reflexivity|]; split;
            [intros Hlt; apply Hrun; lia|intros Heq; apply Hidle; lia]).
      assert (Hz : ticks id es = 0) by lia.
      destruct (run_idle es _ Hr' Hq) as (Hfin & Hcalls).
      rewrite Hz, Hcalls, Hc'. simpl. rewrite app_nil_r.
      split; [reflexivity|]. split; [lia|now intros _].
    + destruct (step_quiet_running s e id k Hr He Ht) as (Hr' & Hc').
      destruct (IH _ _ Hr' Hq Hk Hn) as (Hcalls & Hrun & Hidle).
      rewrite Hcalls, Hc'. auto.
Qed.

(** C2. From any reachable state in which a start is accepted, a sequence
    that is neither cancelled nor restarted initiates, after [n] ticks of
    its timer, exactly the first [n] stations of front, left, right,
    brake, one per tick; it is still running before the fifth tick, and
    after that tick, having initiated exactly the four captures, it is
    idle: no timer left, running flag false, current station cleared. *)
Theorem autoCapture_visits_stations_in_order (s : State) (es : list Event) :
  reachable s ->
  videoSource s <> none ->
  autoCapturing (auto s) = false ->
  quiet es = true ->
  ticks (nextTimerId (auto s)) es <= 5 ->
  let n := ticks (nextTimerId (auto s)) es in
  let s' := run (step s AutoCaptureClick) es in
  autoCalls s' = (autoCalls s ++ firstn n [front; left; right; brake])%list /\
  (n < 5 -> running (nextTimerId (auto s)) n s') /\
  (n = 5 -> idle s' /\
            autoCalls s' = (autoCalls s ++ [front; left; right; brake])%list).
Proof.
  intros Hreach Hv Ha Hq Hn n s'.
  pose proof (reachable_accepting_idle s Hreach Ha) as Hidle.
  destruct (startAutoCapture_running s Hv Hidle) as (Hr & Hc & _).
  destruct (run_running _ es 0 _ Hr Hq) as (Hcalls & Hrun & Hfin);
    [lia|exact Hn|].
  fold s' in Hcalls, Hrun, Hfin. fold n in Hcalls, Hrun, Hfin.
  rewrite (autoCalls_same _ _ Hc) in Hcalls. simpl in Hcalls.
  split; [exact Hcalls|]. split; [exact Hrun|].
  intros H5. split; [now apply Hfin|]. rewrite Hcalls, H5. reflexivity.
Qed.

Lemma autoCapture_visits_stations_in_order_witness :
  idle (run (step webcamSelected AutoCaptureClick) fiveTicks) /\
  autoCalls (run (step webcamSelected AutoCaptureClick) fiveTicks)
  = [front; left; right; brake].
Proof.
  refine (proj2 (proj2 (autoCapture_visits_stations_in_order
                          webcamSelected fiveTicks
                          (reach_step _ _ reach_init) _ _ _ _)) _);
    vm_compute; (discriminate || reflexivity || lia).
Defined.

(** C5 (amended). An accepted start initiates no capture: it sets the
    running flag, shows front as the current station and arms the timer,
    leaving slots and outstanding requests as they were.  The capture of
    front is initiated by the first tick of that timer. *)
Theorem startAutoCapture_defers_first_capture (s : State) :
  reachable s ->
  videoSource s <> none ->
  autoCapturing (auto s) = false ->
  let s1 := step s AutoCaptureClick in
  captureCalls s1 = captureCalls s /\
  blocks s1 = blocks s /\
  pending s1 = pending s /\
  autoCapturing (auto s1) = true /\
  currentAutoStation (auto s1) = Some front /\
  autoCaptureTimerRef (auto s1) = Some (nextTimerId (auto s)) /\
  forall input,
    captureCalls (step s1 (AutoTick (nextTimerId (auto s)) input))
    = (captureCalls s ++ [(Auto, front)])%list.
Proof.
  intros Hreach Hv Ha s1.
  pose proof (reachable_accepting_idle s Hreach Ha) as Hidle.
  destruct (startAutoCapture_running s Hv Hidle) as (Hr & Hc & Hb & Hp).
  fold s1 in Hr, Hc, Hb, Hp.
  repeat split; try assumption; try apply Hr.
  intros input.
  pose proof (autoTick_running s1 _ 0 input Hr) as (_ & Ht). simpl in Ht.
  change (step s1 (AutoTick (nextTimerId (auto s)) input))
    with (autoTick (nextTimerId (auto s)) input s1).
  now rewrite Ht, Hc.
Qed.

Lemma startAutoCapture_defers_first_capture_witness :
  captureCalls (step webcamSelected AutoCaptureClick)
  = captureCalls webcamSelected.
Proof.
  refine (proj1 (startAutoCapture_defers_first_capture
                   webcamSelected (reach_step _ _ reach_init) _ _));
    vm_compute; (discriminate || reflexivity).
Defined.

(** C5 as stated fails: a start that is accepted leaves the component
    running with front shown as current station, and no capture has been
    invoked at that time. *)
Lemma start_invokes_no_capture :
  videoSource webcamSelected <> none /\
  autoCapturing (auto webcamSelected) = false /\
  autoCapturing (auto (step webcamSelected AutoCaptureClick)) = true /\
  captureCalls (step webcamSelected AutoCaptureClick) = [] /\
  pending (step webcamSelected AutoCaptureClick) = [].
Proof. vm_compute. repeat split. discriminate. Qed.

End Sequencer.

(** ** Busy slots and outstanding requests *)

Section Busy.
Import LiveFeed.
Local Open Scope nat_scope.

Lemma Block_eqb_sym (a b : Block) : Block_eqb a b = Block_eqb b a.
Proof. destruct a, b; reflexivity. Qed.

Lemma run_reachable (es : list Event) :
  forall s, reachable s -> reachable (run s es).
Proof.
  induction es as [|e es IH]; intros s H; [exact H|].
  simpl. apply IH. now constructor.
Qed.

Lemma outstanding_submit block image path (s : State) (b : Block) :
  outstanding (submit block image path s) b
  = outstanding s b + (if Block_eqb block b then 1 else 0).
Proof.
  unfold outstanding. simpl. rewrite filter_app, length_app. simpl.
  now destruct (Block_eqb block b).
Qed.

Lemma filter_removeNth {A} (f : A -> bool) (l : list A) :
  forall n x, nth_error l n = Some x -> f x = false ->
              filter f (removeNth n l) = filter f l.
Proof.
  induction l as [|a l IH]; intros [|n] x Hn Hf; simpl in *; try discriminate.
  - injection Hn as ->. now rewrite Hf.
  - rewrite (IH n x Hn Hf). reflexivity.
Qed.

Lemma busyBacked_ext (s s' : State) :
  blocks s' = blocks s -> pending s' = pending s ->
  busyBacked s -> busyBacked s'.
Proof.
  unfold busyBacked, outstanding. intros -> ->. auto.
Qed.

Lemma busyBacked_submit block image path (s : State) :
  busyBacked s -> busyBacked (submit block image path s).
Proof.
  intros H b Hb. rewrite outstanding_submit.
  rewrite Block_eqb_sym.
  simpl in Hb. rewrite pbGet_pbSet in Hb.
  destruct (Block_eqb b block); [lia|].
  specialize (H b Hb). lia.
Qed.

Lemma busyBacked_captureFromFeed c o block input (s : State) :
  busyBacked s -> busyBacked (captureFromFeed c o block input s).
Proof.
  intros H. unfold captureFromFeed.
  assert (H0 : busyBacked (logCall o block s))
    by (eapply busyBacked_ext; eauto; reflexivity).
  destruct (acquire c (logCall o block s) block input);
    [now apply busyBacked_submit|exact H0].
Qed.

Lemma settle_slots req o (s : State) :
  pending (settle req o s) = pending s /\
  forall b, loading (pbGet (blocks (settle req o s)) b)
            = if Block_eqb b (req_block req) then false
              else loading (pbGet (blocks s) b).
Proof.
  unfold settle.
  destruct o as [|resData];
    [|destruct (req_path req);
      [|destruct (negb (truthyS (rd_annotatedImage resData)))]];
    (split; [reflexivity|]; intros b; simpl; rewrite pbGet_pbSet;
     now destruct (Block_eqb b (req_block req))).
Qed.

Lemma busyBacked_respond n o (s : State) :
  busyBacked s -> busyBacked (respond n o s).
Proof.
  intros H. unfold respond.
  destruct (nth_error (pending s) n) as [req|] eqn:Hn; [|exact H].
  set (s0 := withPending (removeNth n (pending s)) s).
  destruct (settle_slots req o s0) as (Hp & Hl).
  intros b Hb. rewrite Hl in Hb.
  destruct (Block_eqb b (req_block req)) eqn:E; [discriminate|].
  unfold outstanding. rewrite Hp. subst s0. simpl in *.
  rewrite (filter_removeNth _ _ n req Hn).
  - now apply H.
  - now rewrite Block_eqb_sym.
Qed.

Lemma busyBacked_resetBlock block (s : State) :
  busyBacked s -> busyBacked (resetBlock block s).
Proof.
  intros H b Hb. simpl in Hb. rewrite pbGet_pbSet in Hb.
  destruct (Block_eqb b block); [discriminate|]. now apply H.
Qed.

Lemma pending_setVideoSource v (s : State) :
  pending (setVideoSource v s) = pending s.
Proof.
  unfold setVideoSource, stopOnNone.
  destruct (VideoSource_eqb v (videoSource s)); [reflexivity|].
  simpl. destruct v; try reflexivity.
  destruct (autoCaptureTimerRef (auto s)); reflexivity.
Qed.

Lemma pending_pollTick feeds legacy now (s : State) :
  pending (pollTick feeds legacy now s) = pending s.
Proof.
  unfold pollTick, legacyAnswered, stationsAnswered.
  destruct (pollStations feeds now).
  destruct legacy as [data|]; [|reflexivity].
  destruct (truthyS (ld_annotatedImage data)); reflexivity.
Qed.

Lemma busyBacked_step (s : State) (e : Event) :
  busyBacked s -> busyBacked (step s e).
Proof.
  intros H.
  destruct (outside e) eqn:Ho.
  { destruct (step_outside s e Ho) as (Hb & Hp & _).
    eapply busyBacked_ext; [exact Hb|exact Hp|exact H]. }
  destruct e as [v| |blk|feeds legacy now|blk input|blk img|blk| |id input|n o| |feeds' now'|legacy'|blk'];
    try discriminate; simpl.
  - destruct v; try exact H;
      (eapply busyBacked_ext; [| |exact H];
       [apply blocks_setVideoSource|apply pending_setVideoSource]).
  - destruct (VideoSource_eqb (videoSource s) none); [exact H|].
    eapply busyBacked_ext; [| |exact H].
    + apply blocks_clearAll.
    + unfold clearAll. simpl. now rewrite pending_setVideoSource.
  - destruct (isLive s blk && negb (truthyO (afterImage (pbGet (blocks s) blk))));
      [now apply busyBacked_captureFromFeed|exact H].
  - destruct (negb (truthyO (afterImage (pbGet (blocks s) blk))));
      [now apply busyBacked_submit|exact H].
  - destruct (truthyO (beforeImage (pbGet (blocks s) blk))
              || truthyO (afterImage (pbGet (blocks s) blk))
              || loading (pbGet (blocks s) blk));
      [now apply busyBacked_resetBlock|exact H].
  - destruct (VideoSource_eqb (videoSource s) none || autoCapturing (auto s));
      [exact H|].
    unfold startAutoCapture.
    destruct (VideoSource_eqb (videoSource s) none); [exact H|].
    destruct (autoCapturing (auto s)); exact H.
  - unfold autoTick.
    destruct (findInterval id (intervals (auto s))) as [t|]; [|exact H].
    destruct (nth_error stationOrder (currentIndex t)) as [station|];
      [|exact H].
    apply busyBacked_captureFromFeed.
    eapply busyBacked_ext; [| |exact H]; reflexivity.
  - now apply busyBacked_respond.
Qed.

(** C4 (amended). No operation consults the busy flag before starting a
    capture, so captures on one station are not serialised; what holds in
    every reachable state is that a slot whose busy flag is true has at
    least one analysis request outstanding. *)
Theorem busy_slot_has_outstanding_request (s : State) (b : Block) :
  reachable s ->
  loading (pbGet (blocks s) b) = true ->
  1 <= outstanding s b.
Proof.
  intros Hreach. revert b. change (busyBacked s).
  induction Hreach as [|s e _ IH].
  - intros b Hb. destruct b; discriminate.
  - now apply busyBacked_step.
Qed.

Lemma busy_slot_has_outstanding_request_witness :
  1 <= outstanding (step initialState (UploadFile front "data:,still")) front.
Proof.
  apply (busy_slot_has_outstanding_request
           (step initialState (UploadFile front "data:,still")) front).
  - apply reach_step, reach_init.
  - reflexivity.
Defined.

(** C4 as stated fails: in a reachable state whose front slot is busy with
    one capture, the capture button of that station starts a second one
    before the first is answered. *)
Lemma second_capture_while_busy :
  reachable frontBusy /\
  loading (pbGet (blocks frontBusy) front) = true /\
  outstanding frontBusy front = 1 /\
  outstanding (step frontBusy (CaptureClick front (Some ""))) front = 2 /\
  outstanding (step frontBusy (UploadFile front "data:,still")) front = 2.
Proof.
  split; [apply run_reachable, reach_init|].
  vm_compute. repeat split.
Qed.

End Busy.

(** ** Remote-feed connectivity *)

Section Connectivity.
Import LiveFeed.

Lemma Qcltb_lt (x y : Qc) : Qcltb x y = true <-> (x < y)%Qc.
Proof.
  unfold Qcltb, Qclt. rewrite negb_true_iff. split.
  - intros H. apply Qnot_le_lt. intros Hle.
    apply Qle_bool_iff in Hle. congruence.
  - intros H. destruct (Qle_bool y x) eqn:E; [|reflexivity].
    apply Qle_bool_iff in E. exfalso. eapply Qlt_not_le; eauto.
Qed.

Lemma truthyN_zero (q : Qc) : truthyN (JNum q) = false -> q = Q2Qc 0.
Proof.
  simpl. rewrite negb_false_iff. intros H.
  apply Qeq_bool_iff in H. apply Qc_is_canon. simpl.
  now rewrite H.
Qed.

(** The test on a numeric timestamp, when the clock reads at least three
    seconds: a zero timestamp, the only falsy number, is then too old
    anyway. *)
Lemma fresh_num (now ts : Qc) :
  (qc 3 <= now)%Qc ->
  fresh now (JNum ts) = true <-> (now - ts < qc 3)%Qc.
Proof.
  intros Hnow. unfold fresh, jlt, jsub, num. simpl toNumber. cbv iota.
  rewrite andb_true_iff, Qcltb_lt. split; [tauto|].
  intros Hlt. split; [|exact Hlt].
  destruct (truthyN (JNum ts)) eqn:E; [reflexivity|].
  apply truthyN_zero in E. subst ts. exfalso.
  replace (now - Q2Qc 0)%Qc with now in Hlt by ring.
  eapply Qcle_not_lt; eauto.
Qed.

Lemma fresh_not_num (now : Qc) (ts : JsNum) :
  fresh now ts = true -> exists q, ts = JNum q.
Proof.
  unfold fresh. destruct ts; simpl; try discriminate. eauto.
Qed.

(** Each station's cell is decided by that station's answer alone. *)
Lemma pollStations_status feeds (now : Qc) (b : Block) :
  pbGet (snd (pollStations feeds now)) b
  = let '(_, _, ts) := feedResult b (pbGet feeds b) in
    if fresh now ts then mkConnectionStatus true ts else disconnected.
Proof.
  unfold pollStations. simpl. unfold recordResult.
  destruct feeds as [f l r k]. simpl.
  destruct (feedResult front f) as [[b1 i1] t1] eqn:E1.
  destruct (feedResult left l) as [[b2 i2] t2] eqn:E2.
  destruct (feedResult right r) as [[b3 i3] t3] eqn:E3.
  destruct (feedResult brake k) as [[b4 i4] t4] eqn:E4.
  assert (b1 = front) as ->
      by (unfold feedResult in E1; destruct f as [d|];
          [destruct (truthyS (fd_annotatedImage d))|]; congruence).
  assert (b2 = left) as ->
      by (unfold feedResult in E2; destruct l as [d|];
          [destruct (truthyS (fd_annotatedImage d))|]; congruence).
  assert (b3 = right) as ->
      by (unfold feedResult in E3; destruct r as [d|];
          [destruct (truthyS (fd_annotatedImage d))|]; congruence).
  assert (b4 = brake) as ->
      by (unfold feedResult in E4; destruct k as [d|];
          [destruct (truthyS (fd_annotatedImage d))|]; congruence).
  destruct b; simpl; rewrite ?E1, ?E2, ?E3, ?E4;
    destruct (fresh now t1), (fresh now t2), (fresh now t3), (fresh now t4);
    reflexivity.
Qed.

Lemma polledStatus_eq feeds legacy now (s : State) :
  polledStatus feeds legacy now s = snd (pollStations feeds now).
Proof.
  unfold polledStatus, pollTick, legacyAnswered, stationsAnswered.
  destruct (pollStations feeds now) as [newFeeds newConnectionStatus].
  destruct legacy as [data|]; [|reflexivity].
  destruct (truthyS (ld_annotatedImage data)); reflexivity.
Qed.

Lemma polled_connected feeds legacy (now : Qc) (s : State) (station : Block) :
  (qc 3 <= now)%Qc ->
  connected (pbGet (polledStatus feeds legacy now s) station) = true <->
  exists d ts,
    pbGet feeds station = Some d /\
    truthyS (fd_annotatedImage d) = true /\
    fd_timestamp d = JNum ts /\
    (now - ts < qc 3)%Qc.
Proof.
  intros Hnow. rewrite polledStatus_eq, pollStations_status.
  unfold feedResult.
  destruct (pbGet feeds station) as [d|].
  - destruct (truthyS (fd_annotatedImage d)) eqn:Himg.
    + destruct (fresh now (fd_timestamp d)) eqn:Hf; simpl.
      * split; [intros _|reflexivity].
        destruct (fresh_not_num _ _ Hf) as (q & Hq).
        exists d, q. rewrite Hq in Hf.
        repeat split; auto. now apply fresh_num.
      * split; [discriminate|].
        intros (d' & ts & Hd & _ & Hts & Hlt).
        injection Hd as <-. rewrite Hts in Hf.
        apply (fresh_num now ts Hnow) in Hlt. congruence.
    + simpl. split; [discriminate|].
      intros (d' & ts & Hd & Himg' & _). injection Hd as <-. congruence.
  - simpl. split; [discriminate|].
    intros (d' & ts & Hd & _). discriminate.
Qed.

(** C7. At every poll tick (the clock reading at least three seconds),
    a station's connectivity flag is stored as true exactly when the
    station's answer carries a frame whose timestamp lies strictly less
    than three seconds before the current time: a frame 2.9 s old gives
    connected, one 3.1 s old gives disconnected.  The stored flags are
    computed from this tick's answers and the current time alone, whatever
    the state held before. *)
Theorem connectivity_flag_is_recency_test
        (feeds : PerBlock (option FeedData)) (legacy : option LegacyData)
        (now : Qc) (s : State) (station : Block) :
  (qc 3 <= now)%Qc ->
  (connected (pbGet (polledStatus feeds legacy now s) station) = true <->
   exists d ts,
     pbGet feeds station = Some d /\
     truthyS (fd_annotatedImage d) = true /\
     fd_timestamp d = JNum ts /\
     (now - ts < qc 3)%Qc) /\
  connected (pbGet (polledStatus (pbAll (frameAged (Q2Qc (29 # 10)) now))
                                 legacy now s) station) = true /\
  connected (pbGet (polledStatus (pbAll (frameAged (Q2Qc (31 # 10)) now))
                                 legacy now s) station) = false /\
  (forall s0 : State,
      polledStatus feeds legacy now s0 = polledStatus feeds legacy now s) /\
  (forall s0 : State,
      stationConnectionStatus (piFeed (step (withVideoSource pi s0)
                                            (PollTick feeds legacy now)))
      = polledStatus feeds legacy now s).
Proof.
  intros Hnow. split; [now apply polled_connected|].
  split; [|split; [|split]].
  - apply polled_connected; [exact Hnow|].
    eexists _, _. rewrite pbGet_pbAll. unfold frameAged.
    repeat split.
    replace (now - (now - Q2Qc (29 # 10)))%Qc with (Q2Qc (29 # 10)) by ring.
    reflexivity.
  - destruct (connected _) eqn:E; [|reflexivity]. exfalso.
    apply polled_connected in E; [|exact Hnow].
    destruct E as (d & ts & Hd & _ & Hts & Hlt).
    rewrite pbGet_pbAll in Hd. unfold frameAged in Hd.
    injection Hd as <-. simpl in Hts. injection Hts as <-.
    replace (now - (now - Q2Qc (31 # 10)))%Qc with (Q2Qc (31 # 10)) in Hlt
      by ring.
    revert Hlt. vm_compute. discriminate.
  - intros s0. now rewrite !polledStatus_eq.
  - intros s0. simpl.
    change (stationConnectionStatus
              (piFeed (pollTick feeds legacy now (withVideoSource pi s0))))
      with (polledStatus feeds legacy now (withVideoSource pi s0)).
    now rewrite !polledStatus_eq.
Qed.

Lemma connectivity_flag_is_recency_test_witness :
  connected
    (pbGet (polledStatus (pbAll (frameAged (Q2Qc (29 # 10)) (qc 1700000000)))
                         None (qc 1700000000) initialState) brake) = true /\
  connected
    (pbGet (polledStatus (pbAll (frameAged (Q2Qc (31 # 10)) (qc 1700000000)))
                         None (qc 1700000000) initialState) brake) = false.
Proof.
  assert (H : (qc 3 <= qc 1700000000)%Qc) by (vm_compute; discriminate).
  split.
  - exact (proj1 (proj2 (connectivity_flag_is_recency_test
                           (pbAll None) None (qc 1700000000) initialState
                           brake H))).
  - exact (proj1 (proj2 (proj2 (connectivity_flag_is_recency_test
                                  (pbAll None) None (qc 1700000000)
                                  initialState brake H)))).
Defined.

End Connectivity.


(** * Further properties of the modelled code *)

(** ** Deliveries to the aggregator and the bill *)

Section Deliveries.
Import App.

Lemma pbSet_pbSet_same {T} (p : PerBlock T) (b : Block) (v w : T) :
  pbSet (pbSet p b w) b v = pbSet p b v.
Proof. destruct b; reflexivity. Qed.

Lemma pbSet_pbSet_swap {T} (p : PerBlock T) (b1 b2 : Block) (v w : T) :
  Block_eqb b1 b2 = false ->
  pbSet (pbSet p b2 w) b1 v = pbSet (pbSet p b1 v) b2 w.
Proof. destruct b1, b2; simpl; intros H; try discriminate; reflexivity. Qed.

(** X1. Results delivered for two different stations may arrive in either
    order: the stored analysis and the total end up the same.  Two results
    for one station: the later one replaces the earlier one entirely, and
    the total is that of the later one alone. *)
Theorem handleAnalysisComplete_order
        (s : AppState) (b1 b2 : Block) (r1 r2 : AnalysisResult) :
  handleAnalysisComplete b1 r1 (handleAnalysisComplete b2 r2 s)
  = if Block_eqb b1 b2
    then handleAnalysisComplete b1 r1 s
    else handleAnalysisComplete b2 r2 (handleAnalysisComplete b1 r1 s).
Proof.
  destruct (Block_eqb b1 b2) eqn:E.
  - apply Block_eqb_eq in E. subst b2.
    unfold handleAnalysisComplete, updateTotalCost. simpl.
    now rewrite pbSet_pbSet_same.
  - unfold handleAnalysisComplete, updateTotalCost. simpl.
    now rewrite (pbSet_pbSet_swap _ b1 b2 _ _ E).
Qed.

(** X2. On the receipt, the dent and scratch lines are computed from two
    counts of the service record, which stay at the 0 they were created
    with whatever is delivered: the four line items read 0, 0, 910 and 500
    in every state of the dashboard.  The total amount, once a result has
    been delivered, is 1410 plus the repair charges of the four stations;
    before any delivery it is 0. *)
Theorem receipt_lines_omit_station_charges (s : AppState) :
  reachable s ->
  Receipt.dentRepair (serviceRecord s) = lit 0 /\
  Receipt.scratchRepair (serviceRecord s) = lit 0 /\
  Receipt.brakeService (serviceRecord s) = lit 910 /\
  Receipt.diagnosticFee = lit 500 /\
  (forall block result,
      smallCount (scratches result) -> smallCount (dents result) ->
      let s' := handleAnalysisComplete block result s in
      Receipt.totalAmount (serviceRecord s')
      = lit (stationCharges (feedAnalysis s') + 1410)) /\
  Receipt.totalAmount (serviceRecord initialState) = lit 0.
Proof.
  intros Hreach.
  pose proof (reachable_integral s Hreach) as (Hfa & Hrate & Hsc & Hdc).
  unfold Receipt.dentRepair, Receipt.scratchRepair, Receipt.brakeService,
    Receipt.totalAmount.
  rewrite Hrate, Hsc, Hdc.
  split; [vm_compute; reflexivity|]. split; [vm_compute; reflexivity|].
  split; [vm_compute; reflexivity|]. split; [reflexivity|].
  split; [|reflexivity].
  intros block result Hs Hd.
  set (s' := handleAnalysisComplete block result s).
  assert (Hn : integral s')
    by (apply handleAnalysisComplete_integral; auto; now repeat split).
  change (total_cost (serviceRecord s'))
    with (totalOf (feedAnalysis s') (brake_wear_rate (serviceRecord s))).
  rewrite Hrate. apply totalOf_charges, Hn.
Qed.

Lemma receipt_lines_omit_station_charges_witness :
  Receipt.dentRepair
    (serviceRecord (handleAnalysisComplete front emptyResult initialState))
  = lit 0.
Proof.
  refine (proj1 (receipt_lines_omit_station_charges
                   (handleAnalysisComplete front emptyResult initialState) _)).
  apply reach_result; [apply reach_init | left; reflexivity | left; reflexivity].
Defined.

End Deliveries.

(** ** Coherence of the sequencer cells *)

Section SequencerCoherence.
Import LiveFeed.
Import Views.
Local Open Scope nat_scope.

Lemma VideoSource_eqb_eq (a b : VideoSource) :
  VideoSource_eqb a b = true <-> a = b.
Proof. destruct a, b; simpl; split; congruence. Qed.

Lemma videoSource_setVideoSource (v : VideoSource) (s : State) :
  videoSource (setVideoSource v s) = v.
Proof.
  unfold setVideoSource, stopOnNone.
  destruct (VideoSource_eqb v (videoSource s)) eqn:E.
  - apply VideoSource_eqb_eq in E. auto.
  - simpl. destruct v; try reflexivity.
    destruct (autoCaptureTimerRef (auto s)); reflexivity.
Qed.

Lemma videoSource_captureFromFeed c o block input (s : State) :
  videoSource (captureFromFeed c o block input s) = videoSource s.
Proof.
  unfold captureFromFeed.
  destruct (acquire c (logCall o block s) block input); reflexivity.
Qed.

Lemma videoSource_respond n o (s : State) :
  videoSource (respond n o s) = videoSource s.
Proof.
  unfold respond. destruct (nth_error (pending s) n) as [req|]; [|reflexivity].
  unfold settle. destruct o as [|resData]; [reflexivity|].
  destruct (req_path req); [reflexivity|].
  destruct (negb (truthyS (rd_annotatedImage resData))); reflexivity.
Qed.

Lemma videoSource_pollTick feeds legacy now (s : State) :
  videoSource (pollTick feeds legacy now s) = videoSource s.
Proof.
  unfold pollTick, legacyAnswered, stationsAnswered.
  destruct (pollStations feeds now).
  destruct legacy as [data|]; [|reflexivity].
  destruct (truthyS (ld_annotatedImage data)); reflexivity.
Qed.

Lemma videoSource_autoTick id input (s : State) :
  videoSource (autoTick id input s) = videoSource s.
Proof.
  unfold autoTick. destruct (findInterval id (intervals (auto s))) as [t|];
    [|reflexivity].
  destruct (nth_error stationOrder (currentIndex t)); [|reflexivity].
  now rewrite videoSource_captureFromFeed.
Qed.

(** Only the source selector and the master clear change the source. *)
Lemma videoSource_step (s : State) (e : Event) :
  (forall v, e <> SelectSource v) -> e <> ClearAll ->
  videoSource (step s e) = videoSource s.
Proof.
  intros Hsel Hclr.
  destruct (outside e) eqn:Ho; [apply (step_outside s e Ho)|].
  destruct e as [v| |blk|feeds legacy now|blk input|blk img|blk| |id input|n o| |feeds' now'|legacy'|blk'];
    try discriminate; simpl.
  - now elim (Hsel v).
  - now elim Hclr.
  - destruct (isLive s blk && negb (truthyO (afterImage (pbGet (blocks s) blk))));
      [apply videoSource_captureFromFeed|reflexivity].
  - destruct (negb (truthyO (afterImage (pbGet (blocks s) blk)))); reflexivity.
  - destruct (truthyO (beforeImage (pbGet (blocks s) blk))
              || truthyO (afterImage (pbGet (blocks s) blk))
              || loading (pbGet (blocks s) blk)); reflexivity.
  - destruct (VideoSource_eqb (videoSource s) none || autoCapturing (auto s));
      [reflexivity|].
    unfold startAutoCapture.
    destruct (VideoSource_eqb (videoSource s) none); [reflexivity|].
    destruct (autoCapturing (auto s)); reflexivity.
  - apply videoSource_autoTick.
  - apply videoSource_respond.
Qed.

Lemma sequencerOk_loose (s : State) :
  sequencerOk s -> idle s \/ (exists id k, running id k s).
Proof. intros [H|(_ & id & k & _ & H)]; eauto. Qed.

Lemma setVideoSource_none_stops (s : State) :
  sequencerOk s -> idle (setVideoSource none s).
Proof.
  intros H. unfold setVideoSource.
  destruct (VideoSource_eqb none (videoSource s)) eqn:E.
  - apply VideoSource_eqb_eq in E.
    destruct H as [H|(Hv & _)]; [exact H|congruence].
  - unfold stopOnNone. simpl.
    destruct H as [(? & ? & Href & ?)|(_ & id & k & _ & _ & _ & Href & c & Hint)].
    + rewrite Href. unfold idle; auto.
    + rewrite Href. unfold idle. simpl. rewrite Hint. simpl.
      rewrite Nat.eqb_refl. auto.
Qed.

Lemma sequencerOk_step (s : State) (e : Event) :
  sequencerOk s -> sequencerOk (step s e).
Proof.
  intros H.
  destruct (interferes e) eqn:Hi.
  - destruct e as [v| | | | | | | | | | | | |]; try discriminate.
    + destruct v; try discriminate. left. simpl.
      now apply setVideoSource_none_stops.
    + simpl. destruct (VideoSource_eqb (videoSource s) none); [exact H|].
      left. now apply clearAll_idle, sequencerOk_loose.
    + simpl.
      destruct (VideoSource_eqb (videoSource s) none) eqn:Hn; [exact H|].
      destruct (autoCapturing (auto s)) eqn:Ha; [exact H|]. simpl.
      assert (Hv : videoSource s <> none)
        by (intros E; rewrite E in Hn; discriminate).
      destruct H as [Hidle|(_ & id & k & _ & Hr & _)]; [|congruence].
      right. split.
      * unfold startAutoCapture. rewrite Hn, Ha. exact Hv.
      * exists (nextTimerId (auto s)), O. split; [lia|].
        pose proof (startAutoCapture_running s Hv Hidle) as (Hr & _).
        simpl in Hr. now rewrite Hn, Ha in Hr.
  - destruct e as [v| |blk|feeds legacy now|blk input|blk img|blk| |j input|n o| |feeds' now'|legacy'|blk'];
      try discriminate.
    + (* a source other than none *)
      destruct (step_bystander s _ Hi) as (Hauto & _); [intros; discriminate|].
      destruct H as [Hidle|(Hv & id & k & Hk & Hr)].
      * left. eapply idle_of_auto; eauto.
      * right. split.
        -- destruct v; simpl; try exact Hv;
             rewrite videoSource_setVideoSource; discriminate.
        -- exists id, k. split; [exact Hk|]. eapply running_of_auto; eauto.
    + destruct (step_bystander s _ Hi) as (Hauto & _); [intros; discriminate|].
      destruct H as [Hidle|(Hv & id & k & Hk & Hr)];
        [left; eapply idle_of_auto; eauto|].
      right. split; [rewrite videoSource_step; [exact Hv|intros; discriminate
                                               |discriminate]|].
      exists id, k. split; [exact Hk|]. eapply running_of_auto; eauto.
    + destruct (step_bystander s _ Hi) as (Hauto & _); [intros; discriminate|].
      destruct H as [Hidle|(Hv & id & k & Hk & Hr)];
        [left; eapply idle_of_auto; eauto|].
      right. split; [rewrite videoSource_step; [exact Hv|intros; discriminate
                                               |discriminate]|].
      exists id, k. split; [exact Hk|]. eapply running_of_auto; eauto.
    + destruct (step_bystander s _ Hi) as (Hauto & _); [intros; discriminate|].
      destruct H as [Hidle|(Hv & id & k & Hk & Hr)];
        [left; eapply idle_of_auto; eauto|].
      right. split; [rewrite videoSource_step; [exact Hv|intros; discriminate
                                               |discriminate]|].
      exists id, k. split; [exact Hk|]. eapply running_of_auto; eauto.
    + destruct (step_bystander s _ Hi) as (Hauto & _); [intros; discriminate|].
      destruct H as [Hidle|(Hv & id & k & Hk & Hr)];
        [left; eapply idle_of_auto; eauto|].
      right. split; [rewrite videoSource_step; [exact Hv|intros; discriminate
                                               |discriminate]|].
      exists id, k. split; [exact Hk|]. eapply running_of_auto; eauto.
    + destruct (step_bystander s _ Hi) as (Hauto & _); [intros; discriminate|].
      destruct H as [Hidle|(Hv & id & k & Hk & Hr)];
        [left; eapply idle_of_auto; eauto|].
      right. split; [rewrite videoSource_step; [exact Hv|intros; discriminate
                                               |discriminate]|].
      exists id, k. split; [exact Hk|]. eapply running_of_auto; eauto.
    + change (step s (AutoTick j input)) with (autoTick j input s).
      destruct H as [Hidle|(Hv & id & k & Hk & Hr)].
      * left. now rewrite autoTick_idle.
      * destruct (Nat.eq_dec j id) as [->|Hj].
        -- pose proof (autoTick_running s id k input Hr) as Ht.
           destruct (nth_error stationOrder k) as [st|] eqn:Hnth.
           ++ right. split; [now rewrite videoSource_autoTick|].
              exists id, (S k). split; [|apply Ht].
              assert (k < List.length stationOrder)
                by (apply nth_error_Some; congruence).
              simpl in *. lia.
           ++ left. apply Ht.
        -- right. rewrite (autoTick_other s id k j input Hr Hj). eauto 6.
    + destruct (step_bystander s _ Hi) as (Hauto & _); [intros; discriminate|].
      destruct H as [Hidle|(Hv & id & k & Hk & Hr)];
        [left; eapply idle_of_auto; eauto|].
      right. split; [rewrite videoSource_step; [exact Hv|intros; discriminate
                                               |discriminate]|].
      exists id, k. split; [exact Hk|]. eapply running_of_auto; eauto.
    + destruct (step_bystander s _ Hi) as (Hauto & _); [intros; discriminate|].
      destruct H as [Hidle|(Hv & id & k & Hk & Hr)];
        [left; eapply idle_of_auto; eauto|].
      right. split; [rewrite videoSource_step; [exact Hv|intros; discriminate
                                               |discriminate]|].
      exists id, k. split; [exact Hk|]. eapply running_of_auto; eauto.
    + destruct (step_bystander s _ Hi) as (Hauto & _); [intros; discriminate|].
      destruct H as [Hidle|(Hv & id & k & Hk & Hr)];
        [left; eapply idle_of_auto; eauto|].
      right. split; [rewrite videoSource_step; [exact Hv|intros; discriminate
                                               |discriminate]|].
      exists id, k. split; [exact Hk|]. eapply running_of_auto; eauto.
    + destruct (step_bystander s _ Hi) as (Hauto & _); [intros; discriminate|].
      destruct H as [Hidle|(Hv & id & k & Hk & Hr)];
        [left; eapply idle_of_auto; eauto|].
      right. split; [rewrite videoSource_step; [exact Hv|intros; discriminate
                                               |discriminate]|].
      exists id, k. split; [exact Hk|]. eapply running_of_auto; eauto.
    + destruct (step_bystander s _ Hi) as (Hauto & _); [intros; discriminate|].
      destruct H as [Hidle|(Hv & id & k & Hk & Hr)];
        [left; eapply idle_of_auto; eauto|].
      right. split; [rewrite videoSource_step; [exact Hv|intros; discriminate
                                               |discriminate]|].
      exists id, k. split; [exact Hk|]. eapply running_of_auto; eauto.
Qed.

Lemma reachable_sequencerOk (s : State) : reachable s -> sequencerOk s.
Proof.
  induction 1 as [|s e _ IH].
  - left. repeat split.
  - now apply sequencerOk_step.
Qed.

End SequencerCoherence.

Section SequencerFacts.
Import LiveFeed.
Import Views.
Local Open Scope nat_scope.

(** X3. In every reachable state the sequencer cells agree with each other:
    the running flag is set exactly when the timer ref holds a timer, which
    is then the only live timer; the current station is empty when the flag
    is clear and is one of the four stations when it is set; and with no
    video source selected the sequencer is not running. *)
Theorem sequencer_cells_agree (s : State) :
  reachable s ->
  (autoCapturing (auto s) = true <-> autoCaptureTimerRef (auto s) <> None) /\
  (autoCapturing (auto s) = true <->
   exists id t, autoCaptureTimerRef (auto s) = Some id /\
                intervals (auto s) = [(id, t)] /\ currentIndex t <= 4) /\
  (autoCapturing (auto s) = false ->
   currentAutoStation (auto s) = None /\ intervals (auto s) = []) /\
  (autoCapturing (auto s) = true ->
   exists b, currentAutoStation (auto s) = Some b) /\
  (videoSource s = none -> autoCapturing (auto s) = false).
Proof.
  intros Hreach.
  destruct (reachable_sequencerOk s Hreach)
    as [(Ha & Hc & Hr & Hi)|(Hv & id & k & Hk & Ha & Hc & Hr & c & Hi)].
  - rewrite Ha, Hc, Hr, Hi. repeat split; try congruence.
    intros (id & t & H & _). discriminate.
  - rewrite Ha, Hr, Hi. repeat split; try congruence.
    + intros _. exists id, (mkInterval k c). auto.
    + intros _. rewrite Hc.
      destruct k as [|[|[|[|[|k]]]]]; simpl; eauto; lia.
Qed.

Lemma sequencer_cells_agree_witness :
  autoCapturing (auto (step webcamSelected AutoCaptureClick)) = true <->
  autoCaptureTimerRef (auto (step webcamSelected AutoCaptureClick)) <> None.
Proof.
  exact (proj1 (sequencer_cells_agree
                  (step webcamSelected AutoCaptureClick)
                  (reach_step _ _ (reach_step _ _ reach_init)))).
Defined.

(** X4. While a sequence runs, the number in the button text
    [CAPTURING n/4...] lies between 1 and 4. *)
Theorem progress_between_1_and_4 (s : State) :
  reachable s ->
  autoCapturing (auto s) = true ->
  (1 <= progress s <= 4)%Z.
Proof.
  intros Hreach Ha.
  destruct (reachable_sequencerOk s Hreach)
    as [(Ha' & _)|(_ & id & k & Hk & _ & Hc & _)]; [congruence|].
  unfold progress. rewrite Hc.
  destruct k as [|[|[|[|[|k]]]]]; simpl; lia.
Qed.

Lemma progress_between_1_and_4_witness :
  (1 <= progress (step webcamSelected AutoCaptureClick) <= 4)%Z.
Proof.
  apply progress_between_1_and_4.
  - apply reach_step, reach_step, reach_init.
  - reflexivity.
Defined.

(** X5. The master clear, and selecting no feed, stop a sequence wherever
    it stands: afterwards the sequencer is idle under no source, the slots
    and the outstanding requests are what they were, and a tick of any
    timer changes nothing. *)
Theorem cancel_stops_sequence (s : State) (e : Event) :
  reachable s ->
  videoSource s <> none ->
  e = ClearAll \/ e = SelectSource none ->
  idle (step s e) /\
  videoSource (step s e) = none /\
  blocks (step s e) = blocks s /\
  pending (step s e) = pending s /\
  forall j input, step (step s e) (AutoTick j input) = step s e.
Proof.
  intros Hreach Hv He.
  pose proof (reachable_sequencerOk s Hreach) as Hok.
  assert (Hn : VideoSource_eqb (videoSource s) none = false)
    by (destruct (videoSource s); auto; now elim Hv).
  assert (Hidle : idle (step s e)).
  { destruct He as [->| ->]; simpl.
    - rewrite Hn. now apply clearAll_idle, sequencerOk_loose.
    - now apply setVideoSource_none_stops. }
  split; [exact Hidle|].
  split; [|split; [|split]].
  - destruct He as [->| ->]; simpl.
    + rewrite Hn. unfold clearAll. simpl. apply videoSource_setVideoSource.
    + apply videoSource_setVideoSource.
  - destruct He as [->| ->]; simpl.
    + rewrite Hn. apply blocks_clearAll.
    + apply blocks_setVideoSource.
  - destruct He as [->| ->]; simpl.
    + rewrite Hn. unfold clearAll. simpl. now rewrite pending_setVideoSource.
    + apply pending_setVideoSource.
  - intros j input.
    change (step (step s e) (AutoTick j input))
      with (autoTick j input (step s e)).
    now apply autoTick_idle.
Qed.

Lemma cancel_stops_sequence_witness :
  idle (step (step webcamSelected AutoCaptureClick) ClearAll).
Proof.
  refine (proj1 (cancel_stops_sequence
                   (step webcamSelected AutoCaptureClick) ClearAll
                   (reach_step _ _ (reach_step _ _ reach_init)) _ _)).
  - vm_compute. discriminate.
  - left. reflexivity.
Defined.

Lemma armed_start (s : State) :
  videoSource s <> none -> idle s ->
  armed (nextTimerId (auto s)) 0 (closureOf s) (step s AutoCaptureClick).
Proof.
  intros Hv Hidle. split; [now apply startAutoCapture_running|].
  destruct Hidle as (Ha & _ & _ & Hi).
  assert (Hn : VideoSource_eqb (videoSource s) none = false)
    by (destruct (videoSource s); auto; now elim Hv).
  simpl. unfold startAutoCapture. rewrite Hn, Ha. simpl.
  now rewrite Hi.
Qed.

Lemma armed_step_quiet (s : State) (e : Event) id k c :
  armed id k c s -> interferes e = false -> isTick id e = false ->
  armed id k c (step s e).
Proof.
  intros (Hr & Hi) He Ht.
  split; [now apply step_quiet_running|].
  destruct e as [v| |blk|feeds legacy now|blk input|blk img|blk| |j input|n o| |feeds' now'|legacy'|blk'];
    try (destruct (step_bystander s _ He) as (Hauto & _);
         [intros; discriminate|]; now rewrite Hauto).
  change (step s (AutoTick j input)) with (autoTick j input s).
  simpl in Ht. apply Nat.eqb_neq in Ht.
  rewrite (autoTick_other s id k j input Hr); [exact Hi|congruence].
Qed.

(** A tick of the armed timer calls [captureFromFeed] of the render the
    timer was armed in. *)
Lemma armed_tick (s : State) id k c station input :
  armed id k c s ->
  nth_error stationOrder k = Some station ->
  armed id (S k) c (autoTick id input s) /\
  exists s1,
    blocks s1 = blocks s /\ pending s1 = pending s /\
    autoTick id input s = captureFromFeed c Auto station input s1.
Proof.
  intros (Hr & Hi) Hk.
  pose proof (autoTick_running s id k input Hr) as Ht. rewrite Hk in Ht.
  assert (Heq : exists s1,
             blocks s1 = blocks s /\ pending s1 = pending s /\
             intervals (auto s1) = [(id, mkInterval (S k) c)] /\
             autoTick id input s = captureFromFeed c Auto station input s1).
  { unfold autoTick. rewrite Hi. simpl. rewrite Nat.eqb_refl. simpl.
    rewrite Hk.
    refine (ex_intro _ _ (conj _ (conj _ (conj _ eq_refl))));
      reflexivity. }
  destruct Heq as (s1 & Hb & Hp & Hi1 & Heq).
  split.
  - split; [apply Ht|]. now rewrite Heq, auto_captureFromFeed.
  - exists s1. auto.
Qed.

Lemma run_armed id c (es : list Event) :
  forall k s,
    armed id k c s -> quiet es = true -> k + ticks id es <= 4 ->
    armed id (k + ticks id es) c (run s es).
Proof.
  induction es as [|e es IH]; intros k s Ha Hq Hn.
  - unfold ticks. simpl. now rewrite Nat.add_0_r.
  - simpl in Hq. apply andb_prop in Hq as (He & Hq).
    apply negb_true_iff in He.
    rewrite ticks_cons in *. simpl run.
    destruct (isTick id e) eqn:Ht.
    + destruct e; try discriminate.
      simpl in Ht. apply Nat.eqb_eq in Ht. subst id0.
      destruct (nth_error stationOrder k) as [st|] eqn:Hk.
      * destruct (armed_tick s id k c st input Ha Hk) as (Ha' & _).
        replace (k + S (ticks id es)) with (S k + ticks id es) by lia.
        apply IH; [exact Ha'|exact Hq|lia].
      * apply nth_error_None in Hk. simpl in Hk. lia.
    + apply IH; [now apply armed_step_quiet|exact Hq|exact Hn].
Qed.

(** X6. The interval callback keeps the [captureFromFeed] of the render in
    which the sequence was started.  Under the remote feed, the capture
    that a tick initiates therefore submits the image that was cached for
    its station when the sequence was started (or the shared image of that
    time), whatever the polls in between have stored or erased, and submits
    nothing if there was none at that time. *)
Theorem autoCapture_reads_frames_of_start
        (s : State) (es : list Event) (station : Block) (fetched : string) :
  reachable s ->
  videoSource s = pi ->
  autoCapturing (auto s) = false ->
  quiet es = true ->
  nth_error stationOrder (ticks (nextTimerId (auto s)) es) = Some station ->
  let s1 := run (step s AutoCaptureClick) es in
  let s2 := step s1 (AutoTick (nextTimerId (auto s)) (Some fetched)) in
  pending s2 = (pending s1 ++ piRequests (closureOf s) station)%list /\
  (piRequests (closureOf s) station = [] -> blocks s2 = blocks s1).
Proof.
  intros Hreach Hpi Hauto Hq Hk s1 s2.
  pose proof (reachable_accepting_idle s Hreach Hauto) as Hidle.
  assert (Hv : videoSource s <> none) by (rewrite Hpi; discriminate).
  pose proof (armed_start s Hv Hidle) as Ha.
  assert (Hlt : ticks (nextTimerId (auto s)) es < 4).
  { assert (ticks (nextTimerId (auto s)) es < List.length stationOrder)
      by (apply nth_error_Some; congruence).
    simpl in *. lia. }
  pose proof (run_armed _ _ es 0 _ Ha Hq) as Hrun.
  simpl in Hrun. fold s1 in Hrun. specialize (Hrun ltac:(lia)).
  destruct (armed_tick s1 _ _ _ station (Some fetched) Hrun Hk)
    as (_ & s0 & Hb & Hp & Heq).
  change s2 with (autoTick (nextTimerId (auto s)) (Some fetched) s1).
  rewrite Heq. unfold captureFromFeed, acquire, piRequests, piSource.
  simpl c_videoSource. rewrite Hpi.
  destruct (orElse (orElse (pbGet (c_stationPiFeeds (closureOf s)) station)
                           (c_piRawImage (closureOf s)))
                   (c_piImage (closureOf s))) as [image|] eqn:Hsrc.
  - destruct (truthyO (Some image)) eqn:Htr; simpl negb; cbv iota.
    + simpl. rewrite Hp. split; [reflexivity|discriminate].
    + simpl. rewrite Hp, Hb, app_nil_r. auto.
  - simpl. rewrite Hp, Hb, app_nil_r. auto.
Qed.

Lemma autoCapture_reads_frames_of_start_witness :
  pbGet (stationPiFeeds
           (piFeed (run (step cachedThenSilent AutoCaptureClick) [silentPoll])))
        front = None /\
  pending (step (run (step cachedThenSilent AutoCaptureClick) [silentPoll])
                (AutoTick 1 (Some "")))
  = [mkRequest front "data:image/jpeg;base64,QQ==" FromFeed].
Proof.
  split; [vm_compute; reflexivity|].
  refine (proj1 (autoCapture_reads_frames_of_start
                   cachedThenSilent [silentPoll] front ""
                   (run_reachable _ _ reach_init) _ _ _ _));
    vm_compute; reflexivity.
Defined.

End SequencerFacts.

(** ** Answers of the analysis service *)

Section Answers.
Import LiveFeed.
Import Views.
Local Open Scope nat_scope.

(** X7. For an answer whose three counts are non-negative integers below
    [2^40], the status derived from it is "Bad" exactly when some count is
    positive, and "Good" when all three are 0.  When any one of the counts
    is missing from the answer the status is "Good", however many defects
    the other counts report.  The test is on the binary64 sum: counts
    [1e16], [1] and [-1e16], whose real sum is 1, add up to 0 and give
    "Good". *)
Theorem brakeStatus_of_answer
        (req : Request) (s : State) (image url1 url2 : JsStr) (a b c : Z)
        (x y : JsNumber) :
  small a -> small b -> small c ->
  let status := fun resData =>
    brakeStatus (analysisResult
                   (pbGet (blocks (onResult req resData s)) (req_block req))) in
  (status (mkResData image (lit a) (lit b) (lit c) url1 url2) = Some Bad
   <-> (0 < a \/ 0 < b \/ 0 < c)%Z) /\
  (status (mkResData image (lit a) (lit b) (lit c) url1 url2) = Some Good
   <-> (a = 0 /\ b = 0 /\ c = 0)%Z) /\
  status (mkResData image NUndefined x y url1 url2) = Some Good /\
  status (mkResData image x NUndefined y url1 url2) = Some Good /\
  status (mkResData image x y NUndefined url1 url2) = Some Good /\
  status (mkResData image (lit (10 ^ 16)) (lit 1) (lit (Z.opp (10 ^ 16)))
                    url1 url2) = Some Good.
Proof.
  intros Ha Hb Hc status. unfold small in *. subst status. cbv beta.
  unfold onResult. cbn [blocks onAnalysisComplete setBlocks].
  rewrite !pbGet_pbSet_same.
  cbn [analysisResult brakeStatus rd_scratchCount rd_dentCount rd_crackCount].
  assert (Hsum : ngt (lit a + lit b + lit c)%f64 (lit 0)
                 = (0 <? a + b + c)%Z)
    by (rewrite (nadd_lit a b), (nadd_lit (a + b) c), ngt_lit by lia;
        reflexivity).
  assert (Hnan : forall u v w, ngt (u + v + w)%f64 (lit 0) = false ->
                 (if ngt (u + v + w)%f64 (lit 0) then Bad else Good) = Good)
    by (intros u v w ->; reflexivity).
  split; [|split; [|split; [|split; [|split]]]].
  - rewrite Hsum. destruct (Z.ltb_spec 0 (a + b + c)); split; intros H';
      try reflexivity; try discriminate; lia.
  - rewrite Hsum. destruct (Z.ltb_spec 0 (a + b + c)); split; intros H';
      try reflexivity; try discriminate; lia.
  - reflexivity.
  - f_equal. apply Hnan. unfold ngt, nadd. cbn [toFloat].
    destruct (toFloat x) as [ | [|] | | ]; cbn [SFadd];
      destruct (toFloat y); reflexivity.
  - f_equal. apply Hnan. unfold ngt, nadd. cbn [toFloat].
    destruct (SFadd 53 1024 (toFloat x) (toFloat y)) as [ | [|] | | ];
      reflexivity.
  - vm_compute. reflexivity.
Qed.

Lemma brakeStatus_of_answer_witness :
  brakeStatus
    (analysisResult
       (pbGet (blocks (onResult (mkRequest brake "data:,b" FromFeed)
                                (mkResData (SStr "QQ==") (lit 0) (lit 2) (lit 0)
                                           SUndefined SUndefined)
                                initialState))
              brake))
  = Some Bad.
Proof.
  refine (proj2 (proj1 (brakeStatus_of_answer
                          (mkRequest brake "data:,b" FromFeed) initialState
                          (SStr "QQ==") SUndefined SUndefined 0 2 0
                          NUndefined NUndefined _ _ _)) _);
    unfold small; lia.
Defined.

Lemma nth_error_app_at {A} (l l' : list A) (n : nat) :
  nth_error (l ++ l') (List.length l + n) = nth_error l' n.
Proof. induction l; simpl; auto. Qed.

Lemma removeNth_app_at {A} (l l' : list A) (n : nat) :
  removeNth (List.length l + n) (l ++ l') = (l ++ removeNth n l')%list.
Proof.
  induction l as [|a l IH]; simpl; [reflexivity|now rewrite IH].
Qed.

(** X8. Resetting a slot does not withdraw the capture that is under way:
    the reset clears the busy flag while the request stays outstanding, and
    when its answer arrives the slot is filled again, with the annotated
    image and the counts of the answer but without a before image. *)
Theorem answer_after_reset_refills_slot
        (s : State) (block : Block) (image : string) (resData : ResData) :
  let s1 := submit block image FromFeed s in
  let s2 := resetBlock block s1 in
  let s3 := respond (List.length (pending s)) (Returned resData) s2 in
  pbGet (blocks s2) block = emptyBlock /\
  outstanding s2 block = S (outstanding s block) /\
  beforeImage (pbGet (blocks s3) block) = None /\
  afterImage (pbGet (blocks s3) block)
  = Some (dataUrl (rd_annotatedImage resData)) /\
  scratches (analysisResult (pbGet (blocks s3) block))
  = rd_scratchCount resData /\
  pending s3 = pending s /\
  delivered s3
  = (delivered s ++
     [(block,
       mkAnalysisResult
         (rd_scratchCount resData) (rd_dentCount resData)
         (rd_crackCount resData) (rd_imageUrl resData) (SStr image)
         (SStr (dataUrl (rd_annotatedImage resData)))
         (rd_annotatedImageUrl resData)
         (brakeStatus (analysisResult (pbGet (blocks s3) block))))])%list.
Proof.
  intros s1 s2 s3.
  assert (Hs3 : s3 = onResult (mkRequest block image FromFeed) resData
                              (withPending (pending s) s2)).
  { subst s3 s2 s1. unfold respond.
    cbn [pending resetBlock setBlocks submit withPending].
    now rewrite nth_error_last, removeNth_last. }
  split; [subst s2; simpl; apply pbGet_pbSet_same|].
  split.
  { subst s2 s1. unfold outstanding. simpl.
    rewrite filter_app, length_app. simpl. rewrite Block_eqb_refl. simpl. lia. }
  rewrite Hs3. unfold onResult.
  cbn [blocks pending delivered onAnalysisComplete setBlocks withPending
       req_block req_before].
  rewrite !pbGet_pbSet_same. subst s2 s1. simpl.
  rewrite !pbGet_pbSet_same. simpl. repeat split.
Qed.

(** X9. Answers to captures of two different stations may arrive in either
    order: the four slots end up the same. *)
Theorem answers_of_different_stations_commute
        (s : State) (r1 r2 : Request) (o1 o2 : Outcome) :
  req_block r1 <> req_block r2 ->
  blocks (settle r1 o1 (settle r2 o2 s))
  = blocks (settle r2 o2 (settle r1 o1 s)).
Proof.
  intros Hne.
  destruct r1 as [b1 i1 p1], r2 as [b2 i2 p2]. simpl in Hne.
  unfold settle. cbn [req_block req_path].
  destruct o1 as [|d1], o2 as [|d2];
    try destruct p1; try destruct p2;
    try destruct (negb (truthyS (rd_annotatedImage d1)));
    try destruct (negb (truthyS (rd_annotatedImage d2)));
    destruct b1, b2; try (now elim Hne); reflexivity.
Qed.

Lemma answers_of_different_stations_commute_witness :
  blocks (settle (mkRequest front "a" FromFeed) Threw
                 (settle (mkRequest brake "b" FromUpload) Threw initialState))
  = blocks (settle (mkRequest brake "b" FromUpload) Threw
                   (settle (mkRequest front "a" FromFeed) Threw initialState)).
Proof.
  apply answers_of_different_stations_commute. simpl. discriminate.
Defined.

(** X10. Two captures of one station may overlap, and their answers may
    arrive in the reverse order.  The slot then pairs the before image of
    the capture started last with the annotated image of the answer that
    arrived last, which belongs to the capture started first. *)
Theorem overlapping_captures_mix_images
        (s : State) (block : Block) (first second : string)
        (answerFirst answerSecond : ResData) :
  let s1 := submit block first FromFeed s in
  let s2 := submit block second FromFeed s1 in
  let s3 := respond (S (List.length (pending s))) (Returned answerSecond) s2 in
  let s4 := respond (List.length (pending s)) (Returned answerFirst) s3 in
  beforeImage (pbGet (blocks s4) block) = Some second /\
  afterImage (pbGet (blocks s4) block)
  = Some (dataUrl (rd_annotatedImage answerFirst)) /\
  scratches (analysisResult (pbGet (blocks s4) block))
  = rd_scratchCount answerFirst /\
  loading (pbGet (blocks s3) block) = false /\
  outstanding s3 block = S (outstanding s block) /\
  pending s4 = pending s.
Proof.
  intros s1 s2 s3 s4.
  assert (Hp2 : pending s2
                = (pending s ++ [mkRequest block first FromFeed;
                                 mkRequest block second FromFeed])%list).
  { subst s2 s1. simpl. now rewrite <- app_assoc. }
  assert (Hs3 : s3 = onResult (mkRequest block second FromFeed) answerSecond
                       (withPending
                          (pending s ++ [mkRequest block first FromFeed]) s2)).
  { subst s3. unfold respond. rewrite Hp2.
    replace (S (List.length (pending s))) with (List.length (pending s) + 1)
      by lia.
    now rewrite nth_error_app_at, removeNth_app_at. }
  assert (Hs4 : s4 = onResult (mkRequest block first FromFeed) answerFirst
                       (withPending (pending s) s3)).
  { subst s4. unfold respond. rewrite Hs3.
    cbn [pending onResult onAnalysisComplete setBlocks withPending].
    now rewrite nth_error_last, removeNth_last. }
  rewrite Hs4. unfold onResult at 1 2 3.
  cbn [blocks pending onAnalysisComplete setBlocks withPending req_block].
  rewrite !pbGet_pbSet_same. cbn [beforeImage afterImage analysisResult scratches].
  rewrite Hs3. unfold onResult.
  cbn [blocks pending onAnalysisComplete setBlocks withPending req_block].
  rewrite !pbGet_pbSet_same. cbn [beforeImage loading].
  subst s2 s1. simpl. rewrite !pbGet_pbSet_same. simpl.
  repeat split.
  unfold outstanding. simpl. rewrite filter_app, length_app. simpl.
  rewrite Block_eqb_refl. simpl. lia.
Qed.

(** X12. Under the webcam source (and under no source, which takes the same
    branch) a capture needs the station's [<video>] element: when another
    source is selected by now, when the station has no stream, or when the
    slot already shows an annotated image, the capture stores nothing and
    sends nothing. *)
Theorem webcam_capture_needs_video_element
        (c : Closure) (o : Origin) (block : Block) (input : option string)
        (s : State) :
  c_videoSource c = webcam \/ c_videoSource c = none ->
  videoSource s <> webcam \/
  pbGet (stationWebcams s) block = false \/
  truthyO (afterImage (pbGet (blocks s) block)) = true ->
  blocks (captureFromFeed c o block input s) = blocks s /\
  pending (captureFromFeed c o block input s) = pending s.
Proof.
  intros Hc Hs.
  assert (Hm : videoMounted (logCall o block s) block = false).
  { unfold videoMounted. simpl.
    destruct Hs as [Hv|[Hw|Ha]].
    - destruct (videoSource s); try reflexivity. now elim Hv.
    - rewrite Hw. now rewrite andb_false_r.
    - rewrite Ha. now rewrite andb_false_r. }
  unfold captureFromFeed, acquire.
  destruct Hc as [-> | ->]; rewrite Hm; simpl; auto.
Qed.

Lemma webcam_capture_needs_video_element_witness :
  blocks (captureFromFeed (closureOf webcamSelected) Auto front (Some "f")
                          (step webcamSelected (SelectSource pi)))
  = blocks (step webcamSelected (SelectSource pi)).
Proof.
  refine (proj1 (webcam_capture_needs_video_element
                   (closureOf webcamSelected) Auto front (Some "f")
                   (step webcamSelected (SelectSource pi)) _ _)).
  - left. reflexivity.
  - left. vm_compute. discriminate.
Defined.

End Answers.

(** ** Slots and results *)

Section SlotResults.
Import LiveFeed.
Import Views.

Lemma settled_same (x y : BlockState) :
  afterImage y = afterImage x -> analysisResult y = analysisResult x ->
  settled x -> settled y.
Proof. unfold settled. now intros -> ->. Qed.

Lemma allSettled_ext (s s' : State) :
  blocks s' = blocks s -> allSettled s -> allSettled s'.
Proof. unfold allSettled. now intros ->. Qed.

Lemma allSettled_submit block image path (s : State) :
  allSettled s -> allSettled (submit block image path s).
Proof.
  intros H b. simpl. rewrite pbGet_pbSet.
  destruct (Block_eqb b block) eqn:E; [|apply H].
  apply Block_eqb_eq in E. subst b.
  eapply settled_same; [| |apply (H block)]; reflexivity.
Qed.

Lemma allSettled_captureFromFeed c o block input (s : State) :
  allSettled s -> allSettled (captureFromFeed c o block input s).
Proof.
  intros H. unfold captureFromFeed.
  assert (H0 : allSettled (logCall o block s))
    by (eapply allSettled_ext; eauto; reflexivity).
  destruct (acquire c (logCall o block s) block input);
    [now apply allSettled_submit|exact H0].
Qed.

Lemma allSettled_onCatch block (s : State) :
  allSettled s -> allSettled (onCatch block s).
Proof.
  intros H b. simpl. rewrite pbGet_pbSet.
  destruct (Block_eqb b block) eqn:E; [|apply H].
  apply Block_eqb_eq in E. subst b.
  eapply settled_same; [| |apply (H block)]; reflexivity.
Qed.

Lemma allSettled_onResult req resData (s : State) :
  allSettled s -> allSettled (onResult req resData s).
Proof.
  intros H b. simpl. rewrite pbGet_pbSet.
  destruct (Block_eqb b (req_block req)); [|apply H].
  unfold settled. simpl. discriminate.
Qed.

Lemma allSettled_respond n o (s : State) :
  allSettled s -> allSettled (respond n o s).
Proof.
  intros H. unfold respond.
  destruct (nth_error (pending s) n) as [req|]; [|exact H].
  assert (H0 : allSettled (withPending (removeNth n (pending s)) s))
    by (eapply allSettled_ext; eauto; reflexivity).
  unfold settle. destruct o as [|resData].
  - now apply allSettled_onCatch.
  - destruct (req_path req); [now apply allSettled_onResult|].
    destruct (negb (truthyS (rd_annotatedImage resData)));
      [now apply allSettled_onCatch|now apply allSettled_onResult].
Qed.

Lemma allSettled_step (s : State) (e : Event) :
  allSettled s -> allSettled (step s e).
Proof.
  intros H.
  destruct (outside e) eqn:Ho.
  { eapply allSettled_ext; [apply (step_outside s e Ho)|exact H]. }
  destruct e as [v| |blk|feeds legacy now|blk input|blk img|blk| |id input|n o| |feeds' now'|legacy'|blk'];
    try discriminate; simpl.
  - destruct v; try exact H;
      (eapply allSettled_ext; [apply blocks_setVideoSource|exact H]).
  - destruct (VideoSource_eqb (videoSource s) none); [exact H|].
    eapply allSettled_ext; [apply blocks_clearAll|exact H].
  - destruct (isLive s blk && negb (truthyO (afterImage (pbGet (blocks s) blk))));
      [now apply allSettled_captureFromFeed|exact H].
  - destruct (negb (truthyO (afterImage (pbGet (blocks s) blk))));
      [now apply allSettled_submit|exact H].
  - destruct (truthyO (beforeImage (pbGet (blocks s) blk))
              || truthyO (afterImage (pbGet (blocks s) blk))
              || loading (pbGet (blocks s) blk)); [|exact H].
    intros b. simpl. rewrite pbGet_pbSet.
    destruct (Block_eqb b blk); [reflexivity|apply H].
  - destruct (VideoSource_eqb (videoSource s) none || autoCapturing (auto s));
      [exact H|].
    unfold startAutoCapture.
    destruct (VideoSource_eqb (videoSource s) none); [exact H|].
    destruct (autoCapturing (auto s)); exact H.
  - unfold autoTick.
    destruct (findInterval id (intervals (auto s))) as [t|]; [|exact H].
    destruct (nth_error stationOrder (currentIndex t)) as [station|];
      [|exact H].
    apply allSettled_captureFromFeed.
    eapply allSettled_ext; [|exact H]. reflexivity.
  - now apply allSettled_respond.
Qed.

(** X11. In every reachable state a slot shows an annotated image exactly
    when it holds an analysis result: the two are stored together by an
    answer and emptied together by a reset, and no failure, capture start
    or source change separates them. *)
Theorem slot_image_iff_result (s : State) (b : Block) :
  reachable s ->
  (afterImage (pbGet (blocks s) b) = None <->
   analysisResult (pbGet (blocks s) b) = emptyResult) /\
  (afterImage (pbGet (blocks s) b) <> None <->
   brakeStatus (analysisResult (pbGet (blocks s) b)) <> None).
Proof.
  intros Hreach.
  assert (H : allSettled s).
  { induction Hreach as [|s e _ IH].
    - intros x. destruct x; reflexivity.
    - now apply allSettled_step. }
  specialize (H b). unfold settled in H.
  destruct (afterImage (pbGet (blocks s) b)) as [url|].
  - repeat split; try discriminate; auto.
    intros E. rewrite E in H. now elim H.
  - rewrite H. repeat split; auto; intros E; now elim E.
Qed.

Lemma slot_image_iff_result_witness :
  afterImage (pbGet (blocks frontBusy) front) = None <->
  analysisResult (pbGet (blocks frontBusy) front) = emptyResult.
Proof.
  exact (proj1 (slot_image_iff_result frontBusy front
                  (run_reachable _ _ reach_init))).
Defined.

End SlotResults.

(** ** Remote-feed cache and status line *)

Section RemoteFeedCache.
Import LiveFeed.
Import Views.
Local Open Scope nat_scope.

Lemma feedResult_parts (b : Block) (r : option FeedData) :
  exists ts, feedResult b r = (b, cachedFrame r, ts) /\
             (cachedFrame r = None -> ts = JNull).
Proof.
  unfold feedResult, cachedFrame. destruct r as [d|]; [|eauto].
  destruct (truthyS (fd_annotatedImage d)); eauto.
  eexists. split; [reflexivity|discriminate].
Qed.

Lemma pollStations_feeds feeds (now : Qc) (b : Block) :
  pbGet (fst (pollStations feeds now)) b = cachedFrame (pbGet feeds b).
Proof.
  unfold pollStations. simpl. unfold recordResult.
  destruct feeds as [f l r k]. simpl.
  destruct (feedResult_parts front f) as (t1 & -> & _).
  destruct (feedResult_parts left l) as (t2 & -> & _).
  destruct (feedResult_parts right r) as (t3 & -> & _).
  destruct (feedResult_parts brake k) as (t4 & -> & _).
  destruct (fresh now t1), (fresh now t2), (fresh now t3), (fresh now t4);
    destruct b; reflexivity.
Qed.

Lemma pollTick_feeds feeds legacy now (s : State) :
  stationPiFeeds (piFeed (pollTick feeds legacy now s))
  = fst (pollStations feeds now).
Proof.
  unfold pollTick, legacyAnswered, stationsAnswered.
  destruct (pollStations feeds now) as [newFeeds newConnectionStatus].
  destruct legacy as [data|]; [|reflexivity].
  destruct (truthyS (ld_annotatedImage data)); reflexivity.
Qed.

(** X13. A poll tick rebuilds the frame cache from its own answers: a
    station whose answer carries an image has that image cached, and a
    station whose fetch failed or whose answer has no image has its cache
    emptied, whatever was cached before.  A station stored as connected
    always has a frame cached. *)
Theorem poll_rebuilds_frame_cache
        (feeds : PerBlock (option FeedData)) (legacy : option LegacyData)
        (now : Qc) (s : State) (b : Block) :
  let s' := pollTick feeds legacy now s in
  pbGet (stationPiFeeds (piFeed s')) b = cachedFrame (pbGet feeds b) /\
  (pbGet feeds b = None -> pbGet (stationPiFeeds (piFeed s')) b = None) /\
  (connected (pbGet (stationConnectionStatus (piFeed s')) b) = true ->
   exists image, pbGet (stationPiFeeds (piFeed s')) b = Some image /\
                 truthyO (Some image) = true).
Proof.
  intros s'. subst s'.
  rewrite pollTick_feeds, pollStations_feeds.
  split; [reflexivity|]. split; [now intros ->|].
  change (stationConnectionStatus (piFeed (pollTick feeds legacy now s)))
    with (polledStatus feeds legacy now s).
  rewrite polledStatus_eq, pollStations_status.
  destruct (feedResult_parts b (pbGet feeds b)) as (ts & -> & Hts).
  destruct (cachedFrame (pbGet feeds b)) as [image|] eqn:E.
  - intros _. exists image. split; [reflexivity|].
    unfold cachedFrame in E. destruct (pbGet feeds b) as [d|]; [|discriminate].
    destruct (truthyS (fd_annotatedImage d)); [|discriminate].
    injection E as <-. reflexivity.
  - rewrite (Hts eq_refl). simpl. discriminate.
Qed.

Lemma poll_rebuilds_frame_cache_witness :
  pbGet (stationPiFeeds (piFeed (pollTick (pbAll None) None (qc 1700000009)
                                          cachedThenSilent))) front = None.
Proof.
  exact (proj1 (proj2 (poll_rebuilds_frame_cache
                         (pbAll None) None (qc 1700000009) cachedThenSilent
                         front)) eq_refl).
Defined.


(** The event [PollTick] is the three transitions of a poll in a row. *)
Lemma PollTick_three_transitions feeds legacy now (s : State) :
  videoSource s = pi ->
  run s [PollStart; StationsAnswered feeds now; LegacyAnswered legacy]
  = step s (PollTick feeds legacy now).
Proof.
  intros Hv. cbn [run fold_left step]. rewrite Hv. cbn [VideoSource_eqb].
  unfold pollTick.
  destruct s as [v w r f a b p c d [streams n m]].
  cbn. unfold stationsAnswered, legacyAnswered.
  destruct (pollStations feeds now) as [newFeeds newConnectionStatus].
  cbn. destruct legacy as [data|]; [|reflexivity].
  destruct (truthyS (ld_annotatedImage data)); reflexivity.
Qed.



Lemma truthy_dataUrl (v : JsStr) : truthyO (Some (dataUrl v)) = true.
Proof. reflexivity. Qed.

Lemma piFeed_setVideoSource v (s : State) :
  piFeed (setVideoSource v s) = piFeed s.
Proof.
  unfold setVideoSource, stopOnNone.
  destruct (VideoSource_eqb v (videoSource s)); [reflexivity|].
  simpl. destruct v; try reflexivity.
  destruct (autoCaptureTimerRef (auto s)); reflexivity.
Qed.

Lemma piFeed_captureFromFeed c o block input (s : State) :
  piFeed (captureFromFeed c o block input s) = piFeed s.
Proof.
  unfold captureFromFeed.
  destruct (acquire c (logCall o block s) block input); reflexivity.
Qed.

Lemma piFeed_respond n o (s : State) : piFeed (respond n o s) = piFeed s.
Proof.
  unfold respond. destruct (nth_error (pending s) n) as [req|]; [|reflexivity].
  unfold settle. destruct o as [|resData]; [reflexivity|].
  destruct (req_path req); [reflexivity|].
  destruct (negb (truthyS (rd_annotatedImage resData))); reflexivity.
Qed.

Lemma piFeed_autoTick id input (s : State) :
  piFeed (autoTick id input s) = piFeed s.
Proof.
  unfold autoTick. destruct (findInterval id (intervals (auto s))) as [t|];
    [|reflexivity].
  destruct (nth_error stationOrder (currentIndex t)); [|reflexivity].
  now rewrite piFeed_captureFromFeed.
Qed.

(** X15. Polling never erases the shared legacy images: an answer without
    an image leaves them as they are, and so does a failed fetch.  Over all
    transitions, a shared image that is present stays present unless the
    master clear is pressed; remote-feed captures that fall back on it can
    therefore submit a frame of any age. *)
Theorem shared_image_outlives_polls (s : State) (e : Event) :
  e = ClearAll \/
  ((truthyO (piImage (piFeed s)) = true ->
    truthyO (piImage (piFeed (step s e))) = true) /\
   (truthyO (piRawImage (piFeed s)) = true ->
    truthyO (piRawImage (piFeed (step s e))) = true)).
Proof.
  destruct e as [v| |blk|feeds legacy now|blk input|blk img|blk| |id input|n o| |feeds' now'|legacy'|blk'];
    [right|left; reflexivity|right..]; simpl.
  - destruct v; try rewrite piFeed_setVideoSource; auto.
  - destruct (Nat.ltb 0 (pbGet (startingStreams (inFlight s)) blk)); auto.
  - destruct (VideoSource_eqb (videoSource s) pi); [|auto].
    unfold pollTick, legacyAnswered, stationsAnswered.
  destruct (pollStations feeds now).
    destruct legacy as [data|]; [|simpl; auto].
    destruct (truthyS (ld_annotatedImage data)); simpl; [|auto].
    split; [reflexivity|].
    destruct (truthyS (ld_cleanImage data)); auto.
  - destruct (isLive s blk && negb (truthyO (afterImage (pbGet (blocks s) blk))));
      try rewrite piFeed_captureFromFeed; auto.
  - destruct (negb (truthyO (afterImage (pbGet (blocks s) blk)))); auto.
  - destruct (truthyO (beforeImage (pbGet (blocks s) blk))
              || truthyO (afterImage (pbGet (blocks s) blk))
              || loading (pbGet (blocks s) blk)); auto.
  - destruct (VideoSource_eqb (videoSource s) none || autoCapturing (auto s));
      [auto|].
    unfold startAutoCapture.
    destruct (VideoSource_eqb (videoSource s) none); [auto|].
    destruct (autoCapturing (auto s)); auto.
  - rewrite piFeed_autoTick. auto.
  - rewrite piFeed_respond. auto.
  - destruct (VideoSource_eqb (videoSource s) pi); auto.
  - destruct (Nat.ltb 0 (pollingStations (inFlight s))); [|auto].
    unfold stationsAnswered. destruct (pollStations feeds' now'). simpl. auto.
  - destruct (Nat.ltb 0 (pollingLegacy (inFlight s))); [|auto].
    unfold legacyAnswered.
    destruct legacy' as [data|]; [|simpl; auto].
    destruct (truthyS (ld_annotatedImage data)); simpl; [|auto].
    split; [reflexivity|].
    destruct (truthyS (ld_cleanImage data)); auto.
  - destruct (VideoSource_eqb (videoSource s) webcam); auto.
Qed.

Lemma shared_image_outlives_polls_witness :
  truthyO (piImage (piFeed (step (step (step initialState (SelectSource pi))
                                       (PollTick (pbAll None) (Some legacyOnly)
                                                 (qc 1700000000)))
                                 (PollTick (pbAll None) None (qc 1700000001)))))
  = true.
Proof.
  destruct (shared_image_outlives_polls
              (step (step initialState (SelectSource pi))
                    (PollTick (pbAll None) (Some legacyOnly) (qc 1700000000)))
              (PollTick (pbAll None) None (qc 1700000001))) as [H|(H & _)].
  - discriminate H.
  - apply H. reflexivity.
Defined.

(** X16. The master clear empties the shared images but keeps the
    per-station frame cache and the connectivity flags.  When the remote
    feed is selected again, a capture pressed before the next poll submits
    the frame that was cached before the clear. *)
Theorem clear_keeps_station_frames
        (s : State) (b : Block) (image fetched : string) :
  videoSource s <> none ->
  pbGet (stationPiFeeds (piFeed s)) b = Some image ->
  truthyO (Some image) = true ->
  truthyO (afterImage (pbGet (blocks s) b)) = false ->
  let s1 := step s ClearAll in
  let s3 := run s [ClearAll; SelectSource pi; CaptureClick b (Some fetched)] in
  piImage (piFeed s1) = None /\
  piRawImage (piFeed s1) = None /\
  stationPiFeeds (piFeed s1) = stationPiFeeds (piFeed s) /\
  stationConnectionStatus (piFeed s3) = stationConnectionStatus (piFeed s) /\
  beforeImage (pbGet (blocks s3) b) = Some image /\
  pending s3 = (pending s ++ [mkRequest b image FromFeed])%list.
Proof.
  intros Hv Hfeed Htr Hafter s1 s3.
  assert (Hn : VideoSource_eqb (videoSource s) none = false)
    by (destruct (videoSource s); auto; now elim Hv).
  assert (Hs1 : s1 = clearAll s) by (subst s1; simpl; now rewrite Hn).
  assert (Hsrc1 : videoSource s1 = none).
  { rewrite Hs1. unfold clearAll. simpl. apply videoSource_setVideoSource. }
  assert (Hfeed1 : piFeed s1
                   = mkPiFeed (stationPiFeeds (piFeed s))
                              (stationConnectionStatus (piFeed s)) None None
                              (piStats (piFeed s)) (piStatus (piFeed s))).
  { rewrite Hs1. unfold clearAll. simpl. now rewrite piFeed_setVideoSource. }
  assert (Hb1 : blocks s1 = blocks s) by (rewrite Hs1; apply blocks_clearAll).
  assert (Hp1 : pending s1 = pending s).
  { rewrite Hs1. unfold clearAll. simpl. now rewrite pending_setVideoSource. }
  set (s2 := step s1 (SelectSource pi)).
  assert (Hsrc2 : videoSource s2 = pi)
    by (subst s2; simpl; apply videoSource_setVideoSource).
  assert (Hfeed2 : piFeed s2 = piFeed s1)
    by (subst s2; simpl; apply piFeed_setVideoSource).
  assert (Hb2 : blocks s2 = blocks s)
    by (subst s2; simpl; now rewrite blocks_setVideoSource).
  assert (Hp2 : pending s2 = pending s)
    by (subst s2; simpl; now rewrite pending_setVideoSource).
  change s3 with (step s2 (CaptureClick b (Some fetched))).
  rewrite Hfeed1. simpl.
  split; [reflexivity|]. split; [reflexivity|]. split; [reflexivity|].
  assert (Hacq : acquire (closureOf s2) (logCall Manual b s2) b (Some fetched)
                 = Some image).
  { unfold acquire. simpl c_videoSource. rewrite Hsrc2.
    simpl c_stationPiFeeds. rewrite Hfeed2, Hfeed1. simpl stationPiFeeds.
    rewrite Hfeed. unfold orElse. now rewrite !Htr. }
  unfold isLive. rewrite Hsrc2, Hb2, Hafter. simpl andb. cbv iota.
  unfold captureFromFeed. rewrite Hacq.
  cbn [piFeed blocks pending submit withPending setBlocks logCall].
  rewrite Hfeed2, Hfeed1, Hp2, pbGet_pbSet_same. simpl. auto.
Qed.

Lemma clear_keeps_station_frames_witness :
  beforeImage
    (pbGet (blocks (run cachedThenSilent
                        [ClearAll; SelectSource pi;
                         CaptureClick front (Some "")])) front)
  = Some "data:image/jpeg;base64,QQ==".
Proof.
  refine (proj1 (proj2 (proj2 (proj2 (proj2
            (clear_keeps_station_frames
               cachedThenSilent front "data:image/jpeg;base64,QQ==" ""
               _ _ _ _))))));
    vm_compute; (discriminate || reflexivity).
Defined.

End RemoteFeedCache.

(** ** Webcam device assignment *)

Section DeviceAssignment.
Import Webcams.
Local Open Scope nat_scope.

Lemma orStr_nonempty (a b : string) : a <> "" -> orStr a b = a.
Proof.
  intros H. unfold orStr. destruct (String.eqb_spec a ""); [now elim H|reflexivity].
Qed.

Lemma orStr_empty (b : string) : orStr "" b = b.
Proof. reflexivity. Qed.

Lemma deviceOr_nth (videoDevices : list string) (i : nat) (rest : string) :
  Forall (fun deviceId => deviceId <> "") videoDevices ->
  deviceOr videoDevices i rest = nth i videoDevices rest.
Proof.
  intros Hall. unfold deviceOr.
  destruct (nth_error videoDevices i) as [d|] eqn:E.
  - rewrite (nth_error_nth _ _ rest E). apply orStr_nonempty.
    rewrite Forall_forall in Hall. apply Hall. eapply nth_error_In; eauto.
  - apply nth_error_None in E. now rewrite nth_overflow.
Qed.

(** X17. [initWebcams], when no station has a device selected and every
    enumerated device has an id: each station gets the device at its own
    index (front 0, left 1, right 2, brake 3) and, where the list is too
    short, the first device.  With four or more distinct devices the four
    stations therefore get four different devices; with a single device all
    four share it. *)
Theorem initWebcams_assigns_by_index (videoDevices : list string) :
  videoDevices <> [] ->
  Forall (fun deviceId => deviceId <> "") videoDevices ->
  let assigned := initWebcams (Some videoDevices) (pbAll "") in
  (forall b, pbGet assigned b
             = nth (blockIds b) videoDevices (nth 0 videoDevices "")) /\
  (4 <= List.length videoDevices -> NoDup videoDevices ->
   NoDup (map (pbGet assigned) blocksList)) /\
  (List.length videoDevices = 1 ->
   forall b, pbGet assigned b = pbGet assigned front).
Proof.
  intros Hne Hall assigned.
  assert (Hget : forall b, pbGet assigned b
                           = nth (blockIds b) videoDevices
                                 (nth 0 videoDevices "")).
  { intros b. subst assigned. unfold initWebcams.
    destruct videoDevices as [|d0 rest]; [now elim Hne|].
    cbn [List.length Nat.ltb Nat.leb].
    destruct b; cbn [pbGet pbAll at_front at_left at_right at_brake blockIds];
      rewrite orStr_empty, !deviceOr_nth by assumption; reflexivity. }
  split; [exact Hget|]. split.
  - intros Hlen Hnd. unfold blocksList. cbn [map]. rewrite !Hget.
    destruct videoDevices as [|d0 [|d1 [|d2 [|d3 rest]]]]; simpl in Hlen; try lia.
    simpl.
    change (d0 :: d1 :: d2 :: d3 :: rest)
      with ([d0; d1; d2; d3] ++ rest)%list in Hnd.
    now apply NoDup_app_remove_r in Hnd.
  - intros Hlen b. rewrite !Hget.
    destruct videoDevices as [|d0 [|d1 rest]]; simpl in Hlen; try lia.
    destruct b; reflexivity.
Qed.

Lemma initWebcams_assigns_by_index_witness :
  pbGet (initWebcams (Some ["cam-a"; "cam-b"]) (pbAll "")) left = "cam-b" /\
  pbGet (initWebcams (Some ["cam-a"; "cam-b"]) (pbAll "")) brake = "cam-a".
Proof.
  split.
  - refine (proj1 (initWebcams_assigns_by_index ["cam-a"; "cam-b"] _ _) left).
    + discriminate.
    + repeat constructor; discriminate.
  - refine (proj1 (initWebcams_assigns_by_index ["cam-a"; "cam-b"] _ _) brake).
    + discriminate.
    + repeat constructor; discriminate.
Defined.

(** X18. [initWebcams] never overrides a device a station has already
    selected, and changes no selection at all when the permission request
    fails or no video input is found. *)
Theorem initWebcams_keeps_selection
        (probe : option (list string)) (prev : PerBlock string) (b : Block) :
  pbGet prev b <> "" ->
  pbGet (initWebcams probe prev) b = pbGet prev b /\
  initWebcams None prev = prev /\
  initWebcams (Some []) prev = prev.
Proof.
  intros Hsel. split; [|split; reflexivity].
  unfold initWebcams. destruct probe as [videoDevices|]; [|reflexivity].
  destruct (Nat.ltb 0 (List.length videoDevices)); [|reflexivity].
  destruct b; simpl in *; now apply orStr_nonempty.
Qed.

Lemma initWebcams_keeps_selection_witness :
  pbGet (initWebcams (Some ["cam-a"; "cam-b"])
                     (mkPerBlock "" "" "cam-z" "")) right = "cam-z".
Proof.
  refine (proj1 (initWebcams_keeps_selection
                   (Some ["cam-a"; "cam-b"]) (mkPerBlock "" "" "cam-z" "")
                   right _)).
  simpl. discriminate.
Defined.

End DeviceAssignment.

(** ** RPi camera list *)

Section CameraList.
Import RpiConfig.

Lemma find_none_existsb {A} (f : A -> bool) (l : list A) :
  find f l = None <-> existsb f l = false.
Proof.
  induction l as [|a l IH]; simpl; [tauto|].
  destruct (f a); simpl; [split; discriminate|exact IH].
Qed.

Lemma selectedCamera_found (block : Block) (c : Config) :
  selectedCamera block c <> CameraNotFound <->
  offered (pbGet (selectedRpiCameras c) block) c = true.
Proof.
  unfold selectedCamera, offered, findCamera.
  destruct (pbGet (selectedRpiCameras c) block =? "") eqn:E; simpl.
  - split; [reflexivity|discriminate].
  - destruct (find _ (availableRpiCameras c)) as [cam|] eqn:F.
    + split; [|discriminate]. intros _.
      destruct (existsb _ (availableRpiCameras c)) eqn:X; [reflexivity|].
      apply find_none_existsb in X. congruence.
    + apply find_none_existsb in F. rewrite F.
      split; [intros H; now elim H|discriminate].
Qed.

Lemma existsb_filter_other (cameraId value : string) (l : list RpiCamera) :
  (value =? cameraId) = false ->
  existsb (fun cam => id cam =? value)
          (filter (fun cam => negb (id cam =? cameraId)) l)
  = existsb (fun cam => id cam =? value) l.
Proof.
  intros Hne. induction l as [|a l IH]; simpl; [reflexivity|].
  destruct (id a =? cameraId) eqn:E; simpl.
  - rewrite IH. apply String.eqb_eq in E. rewrite E.
    rewrite String.eqb_sym, Hne. reflexivity.
  - now rewrite IH.
Qed.

Lemma removed_selection (cameraId : string) (c : Config) (block : Block) :
  pbGet (selectedRpiCameras (removeRpiCamera cameraId c)) block
  = if pbGet (selectedRpiCameras c) block =? cameraId then ""
    else pbGet (selectedRpiCameras c) block.
Proof. destruct block; reflexivity. Qed.

(** X19. Removing a camera (its id not empty): the camera leaves the list
    and every other camera stays; no station selects it afterwards, the
    stations that did select it select nothing, and the others keep their
    selection.  Removing it a second time changes nothing. *)
Theorem removeRpiCamera_unselects (cameraId : string) (c : Config) :
  cameraId <> "" ->
  let c' := removeRpiCamera cameraId c in
  (forall cam, In cam (availableRpiCameras c') <->
               In cam (availableRpiCameras c) /\ id cam <> cameraId) /\
  (forall block, pbGet (selectedRpiCameras c') block <> cameraId) /\
  (forall block, pbGet (selectedRpiCameras c) block = cameraId ->
                 selectedCamera block c' = NoCameraSelected) /\
  (forall block, pbGet (selectedRpiCameras c) block <> cameraId ->
                 pbGet (selectedRpiCameras c') block
                 = pbGet (selectedRpiCameras c) block) /\
  removeRpiCamera cameraId c' = c'.
Proof.
  intros Hid c'. subst c'. repeat split.
  - simpl in H. apply filter_In in H. apply H.
  - simpl in H. apply filter_In in H. destruct H as (_ & H).
    apply negb_true_iff, String.eqb_neq in H. exact H.
  - intros (Hin & Hne). simpl. apply filter_In. split; [exact Hin|].
    now apply negb_true_iff, String.eqb_neq.
  - intros block. rewrite removed_selection.
    destruct (String.eqb_spec (pbGet (selectedRpiCameras c) block) cameraId);
      congruence.
  - intros block Hsel. unfold selectedCamera. rewrite removed_selection.
    rewrite Hsel, String.eqb_refl. reflexivity.
  - intros block Hsel. rewrite removed_selection.
    now destruct (String.eqb_spec (pbGet (selectedRpiCameras c) block) cameraId).
  - unfold removeRpiCamera. cbn [availableRpiCameras selectedRpiCameras
                                 at_front at_left at_right at_brake].
    f_equal.
    + induction (availableRpiCameras c) as [|a l IH]; simpl; [reflexivity|].
      destruct (id a =? cameraId) eqn:E; simpl; [exact IH|].
      now rewrite E, IH.
    + assert (Hclear : forall x,
                 (if (if x =? cameraId then "" else x) =? cameraId then ""
                  else if x =? cameraId then "" else x)
                 = if x =? cameraId then "" else x).
      { intros x. destruct (x =? cameraId) eqn:E; [|now rewrite E].
        destruct (String.eqb_spec "" cameraId); congruence. }
      now rewrite !Hclear.
Qed.

Lemma removeRpiCamera_unselects_witness :
  selectedCamera front (removeRpiCamera "rpi_1" twoCameras) = NoCameraSelected.
Proof.
  refine (proj1 (proj2 (proj2 (removeRpiCamera_unselects "rpi_1" twoCameras _)))
                front _).
  - discriminate.
  - reflexivity.
Defined.

Lemma valid_step (c : Config) (e : Event) : valid c -> valid (step c e).
Proof.
  intros Hv block. apply selectedCamera_found.
  specialize (Hv block). apply selectedCamera_found in Hv.
  destruct e as [cameraId|blk value]; cbn [step].
  - unfold offered in *. rewrite removed_selection.
    destruct (pbGet (selectedRpiCameras c) block =? cameraId) eqn:E;
      [reflexivity|].
    unfold removeRpiCamera. cbn [availableRpiCameras].
    now rewrite existsb_filter_other.
  - destruct (offered value c) eqn:O; [|exact Hv].
    unfold offered in *. unfold selectRpiCamera.
    cbn [availableRpiCameras selectedRpiCameras]. rewrite pbGet_pbSet.
    destruct (Block_eqb block blk); [exact O|exact Hv].
Qed.

(** X20. Starting from selections that all refer to listed cameras (or to
    none), no sequence of removals and station selections leads to a
    station whose selected camera is missing from the list: the "RPI camera
    not found" exit of the capture is never taken. *)
Theorem selected_camera_always_listed (c : Config) (es : list Event) :
  valid c -> valid (run c es).
Proof.
  revert c. induction es as [|e es IH]; intros c Hv; [exact Hv|].
  simpl. apply IH. now apply valid_step.
Qed.

Lemma selected_camera_always_listed_witness :
  valid (run twoCameras [Remove "rpi_2"; Select left "rpi_1"; Remove "rpi_1"]).
Proof.
  apply selected_camera_always_listed.
  intros block. destruct block; vm_compute; discriminate.
Defined.

End CameraList.

(** ** Snapshot address *)

Section SnapshotAddress.
Import RpiConfig.
Local Open Scope nat_scope.

Lemma replaceFirst_unfold (pattern replacement s : string) :
  replaceFirst pattern replacement s
  = if String.prefix pattern s
    then replacement ++ substring (String.length pattern)
                                  (String.length s - String.length pattern) s
    else match s with
         | EmptyString => EmptyString
         | String ch rest => String ch (replaceFirst pattern replacement rest)
         end.
Proof. destruct s; reflexivity. Qed.

Lemma replaceFirst_index (pattern replacement : string) :
  forall s,
    replaceFirst pattern replacement s
    = match String.index 0 pattern s with
      | None => s
      | Some n =>
          substring 0 n s ++ replacement
          ++ substring (n + String.length pattern)
                       (String.length s - n - String.length pattern) s
      end.
Proof.
  induction s as [|ch rest IH].
  - rewrite replaceFirst_unfold. simpl.
    destruct pattern; reflexivity.
  - rewrite replaceFirst_unfold.
    cbn [String.index].
    destruct (String.prefix pattern (String ch rest)) eqn:P.
    + reflexivity.
    + rewrite IH. destruct (String.index 0 pattern rest) as [n|]; reflexivity.
Qed.

(** X21. The snapshot address is the camera's stream address with the first
    "/stream" replaced by "/snapshot", later occurrences left alone; an
    address without "/stream" is used unchanged, so the snapshot is then
    requested from the stream address itself. *)
Theorem snapshotUrl_replaces_first_stream (cam : RpiCamera) :
  snapshotUrl cam
  = match String.index 0 "/stream" (url cam) with
    | None => url cam
    | Some n =>
        substring 0 n (url cam) ++ "/snapshot"
        ++ substring (n + 7) (String.length (url cam) - n - 7) (url cam)
    end /\
  snapshotUrl (mkRpiCamera "" "" "http://10.0.0.5:8080/stream")
  = "http://10.0.0.5:8080/snapshot" /\
  snapshotUrl (mkRpiCamera "" "" "http://pi/stream/stream?x=/stream")
  = "http://pi/snapshot/stream?x=/stream" /\
  snapshotUrl (mkRpiCamera "" "" "http://10.0.0.5:8080/video")
  = "http://10.0.0.5:8080/video".
Proof.
  split; [|repeat split].
  unfold snapshotUrl. now rewrite replaceFirst_index.
Qed.

End SnapshotAddress.
